(** * ExecutionPanel: the execution session controller of nemo-web

    A shallow embedding of
    [src/components/rightPanel/executionPanel/ExecutionPanel.tsx].

    The component keeps its data in React state cells ([useState]) and in
    one mutable reference ([workerRef]).  Its handlers are ordinary
    closures; the two asynchronous ones ([runProgram], [traceFactAscii] /
    [traceFactEvonne]) suspend at every [await] and are resumed when the
    awaited promise settles.  We model

    - the state cells and the reference as one record [State];
    - a suspended asynchronous handler as a continuation [Cont] that
      remembers what its closure captured (the worker it created, the
      [programText] and [inputs] of the render it was started from);
    - the event loop as a function [step] that runs one handler, or one
      resumed continuation, to its next suspension point;
    - every operation invoked on a worker as an entry of a log [calls].

    A handler reads the state cells of the render it was created in; a
    click is taken to reach the handler of the latest render, so a
    handler that starts reads the current state.  What a suspended
    handler captured is kept as it was. *)

From stdpp Require Import base option list gmap strings pretty sorting.

(** ** Values exchanged with the worker *)

(** Strings are sequences of code units, here of one byte each. *)

(** Workers are identified by the number the environment gives them; the
    component only ever compares a worker with [undefined]. *)
Definition WorkerId := nat.

Module File.
(** A browser [File]: the panel reads [name] and [size], the content is
    opaque. *)
Record t := mk { name : string; size : N }.
End File.

(** [NemoProgramInfo], as far as the panel reads it.  Durations are
    JavaScript numbers; the controller only stores them and resets them to
    zero. *)
Record NemoProgramInfo := {
  edbPredicates : list string;
  outputPredicates : list string;
  parsingDuration : Z;
}.

Module FactCounts.
(** [FactCounts]: a plain object keyed by predicate name, and an
    aggregate.  [outputPredicates] holds the object's own properties; the
    properties it inherits are those of [Object.prototype], below. *)
Record t := mk {
  outputPredicates : gmap string N;
  factsOfDerivedPredicates : N;
}.
End FactCounts.

(** A thrown value; the handlers only ever call [toString] on it. *)
Record Thrown := { toString : string }.

Inductive TracingFormat := NONE | ASCII | EVONNE.

(** ** JavaScript arrays and the input registry *)

(** A slot of a JavaScript array: an element, the value [undefined], or a
    hole (an index below [length] that was never written). *)
Inductive Slot (A : Type) :=
| Hole
| Undefined
| Val (a : A).
Arguments Hole {A}.
Arguments Undefined {A}.
Arguments Val {A} a.

(** [{ resource: string; file: File }].  Object spread over [undefined]
    yields an object that lacks a property, hence the options. *)
Record InputBinding := {
  resource : option string;
  file : option File.t;
}.

Module JsArray.
Section ops.
Context {A : Type}.

(** [[...arr]]: the iterator reads holes as [undefined]. *)
Definition spread (arr : list (Slot A)) : list (Slot A) :=
  (λ s, match s with Hole => Undefined | _ => s end) <$> arr.

(** [arr[i]], with [None] for the value [undefined]. *)
Definition get (arr : list (Slot A)) (i : nat) : option A :=
  match arr !! i with
  | Some (Val a) => Some a
  | _ => None
  end.

(** [arr[i] = v]: inside the array the slot is overwritten; at or past
    [length] the array grows, leaving holes below [i]. *)
Definition set (arr : list (Slot A)) (i : nat) (v : A) : list (Slot A) :=
  if decide (i < length arr)%nat
  then <[i := Val v]> arr
  else arr ++ replicate (i - length arr) Hole ++ [Val v].

(** [arr.splice(i, 1)]: nothing is removed when [i] is past the end. *)
Definition splice1 (arr : list (Slot A)) (i : nat) : list (Slot A) :=
  delete i arr.
End ops.
End JsArray.

Module InputRegistry.
(** What the [onChange] / [chooseFile] handlers overwrite. *)
Inductive PartialUpdate :=
| SetResource (v : string)
| SetFile (f : File.t).

(** [{ ...old, resource: v }] and [{ ...old, file }]. *)
Definition merge (old : option InputBinding) (u : PartialUpdate) : InputBinding :=
  match u with
  | SetResource v =>
      {| resource := Some v; file := old ≫= file |}
  | SetFile f =>
      {| resource := old ≫= resource; file := Some f |}
  end.

(** Lines 209-214 and 230-235:
    [const newInputs = [...inputs];
     newInputs[inputIndex] = { ...inputs[inputIndex], <update> };] *)
Definition replaceAt (inputs : list (Slot InputBinding)) (inputIndex : nat)
    (u : PartialUpdate) : list (Slot InputBinding) :=
  let newInputs := JsArray.spread inputs in
  JsArray.set newInputs inputIndex (merge (JsArray.get inputs inputIndex) u).

(** Lines 245-247. *)
Definition removeAt (inputs : list (Slot InputBinding)) (inputIndex : nat)
    : list (Slot InputBinding) :=
  JsArray.splice1 (JsArray.spread inputs) inputIndex.

(** Lines 263-270: [inputs.concat([{ resource: file.name, file }])]. *)
Definition add (inputs : list (Slot InputBinding)) (f : File.t)
    : list (Slot InputBinding) :=
  inputs ++ [Val {| resource := Some (File.name f); file := Some f |}].

(** The file chooser hands over a list; an empty one is ignored. *)
Definition chosen (fileList : list File.t)
    (k : File.t → list (Slot InputBinding))
    (inputs : list (Slot InputBinding)) : list (Slot InputBinding) :=
  match fileList with
  | [] => inputs
  | f :: _ => k f
  end.
End InputRegistry.

(** ** The bindings handed to [worker.start] *)

(** How the evaluation of an expression ends: with a value, or by
    throwing. *)
Inductive Completion (A : Type) :=
| Normal (a : A)
| Throw (e : Thrown).
Arguments Normal {A} a.
Arguments Throw {A} e.

Definition andThen {A B} (f : A → B) (c : Completion A) : Completion B :=
  match c with
  | Normal a => Normal (f a)
  | Throw e => Throw e
  end.

(** A property key: [undefined] is converted to the string "undefined". *)
Definition propertyKey (r : option string) : string :=
  default "undefined" r.

(** Reading [input.resource] of [undefined] throws; the message is the
    engine's. *)
Definition readOfUndefined : Thrown :=
  {| toString := "TypeError: Cannot read properties of undefined (reading 'resource')" |}.

(** [inputs.map((input) => [input.resource, input.file])]: holes are
    skipped (and stay holes), [undefined] elements throw. *)
Fixpoint entries (inputs : list (Slot InputBinding))
    : Completion (list (Slot (option string * option File.t))) :=
  match inputs with
  | [] => Normal []
  | Hole :: rest => andThen (λ es, Hole :: es) (entries rest)
  | Undefined :: _ => Throw readOfUndefined
  | Val input :: rest =>
      andThen (λ es, Val (resource input, file input) :: es) (entries rest)
  end.

(** [.filter((input) => input[1] !== undefined)]: a dense array of the
    pairs that carry a file. *)
Fixpoint withFile (es : list (Slot (option string * option File.t)))
    : list (option string * File.t) :=
  match es with
  | [] => []
  | Val (r, Some f) :: rest => (r, f) :: withFile rest
  | _ :: rest => withFile rest
  end.

(** [Object.fromEntries]: properties are defined in order, so a later
    entry overwrites an earlier one with the same key. *)
Definition fromEntries (es : list (option string * File.t)) : gmap string File.t :=
  foldl (λ obj e, <[propertyKey e.1 := e.2]> obj) ∅ es.

(** The argument of [worker.start], lines 110-114. *)
Definition startBindings (inputs : list (Slot InputBinding))
    : Completion (gmap string File.t) :=
  andThen (λ es, fromEntries (withFile es)) (entries inputs).

(** ** Component state *)

Record State := mkState {
  inputs : list (Slot InputBinding);
  activeKey : string;
  workerRef : option WorkerId;
  programInfo : option NemoProgramInfo;
  parseError : option string;
  initializationDuration : Z;
  reasoningDuration : Z;
  factCounts : option FactCounts.t;
  isProgramRunning : bool;
  isWorkerActive : bool;
  tracingFactText : string;
  tracingResult : option string;
  tracingFormat : TracingFormat;
  isTracingModalShown : bool;
  programText : string;
}.

(** The initial render: the arguments of the [useState] / [useRef] calls. *)
Definition initialState (text : string) : State :=
  {| inputs := []; activeKey := "info"; workerRef := None;
     programInfo := None; parseError := None;
     initializationDuration := 0%Z; reasoningDuration := 0%Z;
     factCounts := None; isProgramRunning := false; isWorkerActive := false;
     tracingFactText := ""; tracingResult := None; tracingFormat := NONE;
     isTracingModalShown := false; programText := text |}.

(** The state setters. *)
Definition setInputs v (s : State) : State :=
  mkState v (activeKey s) (workerRef s) (programInfo s) (parseError s)
    (initializationDuration s) (reasoningDuration s) (factCounts s)
    (isProgramRunning s) (isWorkerActive s) (tracingFactText s)
    (tracingResult s) (tracingFormat s) (isTracingModalShown s) (programText s).
Definition setActiveKey v (s : State) : State :=
  mkState (inputs s) v (workerRef s) (programInfo s) (parseError s)
    (initializationDuration s) (reasoningDuration s) (factCounts s)
    (isProgramRunning s) (isWorkerActive s) (tracingFactText s)
    (tracingResult s) (tracingFormat s) (isTracingModalShown s) (programText s).
Definition setWorkerRef v (s : State) : State :=
  mkState (inputs s) (activeKey s) v (programInfo s) (parseError s)
    (initializationDuration s) (reasoningDuration s) (factCounts s)
    (isProgramRunning s) (isWorkerActive s) (tracingFactText s)
    (tracingResult s) (tracingFormat s) (isTracingModalShown s) (programText s).
Definition setProgramInfo v (s : State) : State :=
  mkState (inputs s) (activeKey s) (workerRef s) v (parseError s)
    (initializationDuration s) (reasoningDuration s) (factCounts s)
    (isProgramRunning s) (isWorkerActive s) (tracingFactText s)
    (tracingResult s) (tracingFormat s) (isTracingModalShown s) (programText s).
Definition setParseError v (s : State) : State :=
  mkState (inputs s) (activeKey s) (workerRef s) (programInfo s) v
    (initializationDuration s) (reasoningDuration s) (factCounts s)
    (isProgramRunning s) (isWorkerActive s) (tracingFactText s)
    (tracingResult s) (tracingFormat s) (isTracingModalShown s) (programText s).
Definition setInitializationDuration v (s : State) : State :=
  mkState (inputs s) (activeKey s) (workerRef s) (programInfo s) (parseError s)
    v (reasoningDuration s) (factCounts s)
    (isProgramRunning s) (isWorkerActive s) (tracingFactText s)
    (tracingResult s) (tracingFormat s) (isTracingModalShown s) (programText s).
Definition setReasoningDuration v (s : State) : State :=
  mkState (inputs s) (activeKey s) (workerRef s) (programInfo s) (parseError s)
    (initializationDuration s) v (factCounts s)
    (isProgramRunning s) (isWorkerActive s) (tracingFactText s)
    (tracingResult s) (tracingFormat s) (isTracingModalShown s) (programText s).
Definition setFactCounts v (s : State) : State :=
  mkState (inputs s) (activeKey s) (workerRef s) (programInfo s) (parseError s)
    (initializationDuration s) (reasoningDuration s) v
    (isProgramRunning s) (isWorkerActive s) (tracingFactText s)
    (tracingResult s) (tracingFormat s) (isTracingModalShown s) (programText s).
Definition setIsProgramRunning v (s : State) : State :=
  mkState (inputs s) (activeKey s) (workerRef s) (programInfo s) (parseError s)
    (initializationDuration s) (reasoningDuration s) (factCounts s)
    v (isWorkerActive s) (tracingFactText s)
    (tracingResult s) (tracingFormat s) (isTracingModalShown s) (programText s).
Definition setIsWorkerActive v (s : State) : State :=
  mkState (inputs s) (activeKey s) (workerRef s) (programInfo s) (parseError s)
    (initializationDuration s) (reasoningDuration s) (factCounts s)
    (isProgramRunning s) v (tracingFactText s)
    (tracingResult s) (tracingFormat s) (isTracingModalShown s) (programText s).
Definition setTracingFactText v (s : State) : State :=
  mkState (inputs s) (activeKey s) (workerRef s) (programInfo s) (parseError s)
    (initializationDuration s) (reasoningDuration s) (factCounts s)
    (isProgramRunning s) (isWorkerActive s) v
    (tracingResult s) (tracingFormat s) (isTracingModalShown s) (programText s).
Definition setTracingResult v (s : State) : State :=
  mkState (inputs s) (activeKey s) (workerRef s) (programInfo s) (parseError s)
    (initializationDuration s) (reasoningDuration s) (factCounts s)
    (isProgramRunning s) (isWorkerActive s) (tracingFactText s)
    v (tracingFormat s) (isTracingModalShown s) (programText s).
Definition setTracingFormat v (s : State) : State :=
  mkState (inputs s) (activeKey s) (workerRef s) (programInfo s) (parseError s)
    (initializationDuration s) (reasoningDuration s) (factCounts s)
    (isProgramRunning s) (isWorkerActive s) (tracingFactText s)
    (tracingResult s) v (isTracingModalShown s) (programText s).
Definition setIsTracingModalShown v (s : State) : State :=
  mkState (inputs s) (activeKey s) (workerRef s) (programInfo s) (parseError s)
    (initializationDuration s) (reasoningDuration s) (factCounts s)
    (isProgramRunning s) (isWorkerActive s) (tracingFactText s)
    (tracingResult s) (tracingFormat s) v (programText s).
Definition setProgramText v (s : State) : State :=
  mkState (inputs s) (activeKey s) (workerRef s) (programInfo s) (parseError s)
    (initializationDuration s) (reasoningDuration s) (factCounts s)
    (isProgramRunning s) (isWorkerActive s) (tracingFactText s)
    (tracingResult s) (tracingFormat s) (isTracingModalShown s) v.

(** ** Asynchronous handlers *)

(** An operation invoked on the worker side.  [createNemoWorker] is the
    call that makes a worker; every other entry names the worker it was
    invoked on. *)
Inductive Call :=
| CreateNemoWorker
| ParseProgram (w : WorkerId) (text : string)
| MarkDefaultExports (w : WorkerId)
| Start (w : WorkerId) (bindings : gmap string File.t)
| GetCounts (w : WorkerId)
| ParseAndTraceFactAscii (w : WorkerId) (fact : string)
| ParseAndTraceFactGraphML (w : WorkerId) (fact : string)
| StopWorker (w : WorkerId).

(** Where an asynchronous handler is suspended.  The arguments are the
    local variables and captured render values that the rest of the
    handler still reads. *)
Inductive Cont :=
| AwaitCreate (text : string) (captured : list (Slot InputBinding))
| AwaitParse (worker : WorkerId) (captured : list (Slot InputBinding))
| AwaitMark (worker : WorkerId) (captured : list (Slot InputBinding))
| AwaitStart (worker : WorkerId)
| AwaitCounts (worker : WorkerId)
| AwaitTrace (format : TracingFormat).

(** What a promise can be fulfilled with. *)
Inductive Value :=
| VWorker (w : WorkerId)
| VProgramInfo (info : NemoProgramInfo)
| VVoid
| VStartInfo (initialization reasoning : Z)
| VFactCounts (counts : FactCounts.t)
| VString (s : string).

Inductive Settled :=
| Fulfilled (v : Value)
| Rejected (e : Thrown).

(** The component together with its environment. *)
Record World := mkWorld {
  panel : State;
  tasks : gmap nat Cont;     (* suspended handlers, by task number *)
  nextTask : nat;
  spawned : list WorkerId;   (* workers handed out so far *)
  calls : list Call;         (* worker-side operations, oldest first *)
}.

Definition initialWorld (text : string) : World :=
  mkWorld (initialState text) ∅ 0 [] [].

Definition onPanel (f : State → State) (W : World) : World :=
  mkWorld (f (panel W)) (tasks W) (nextTask W) (spawned W) (calls W).
Definition invoke (c : Call) (W : World) : World :=
  mkWorld (panel W) (tasks W) (nextTask W) (spawned W) (calls W ++ [c]).
Definition suspend (t : nat) (k : Cont) (W : World) : World :=
  mkWorld (panel W) (<[t := k]> (tasks W)) (nextTask W) (spawned W) (calls W).
Definition finish (t : nat) (W : World) : World :=
  mkWorld (panel W) (delete t (tasks W)) (nextTask W) (spawned W) (calls W).
Definition spawn (W : World) : World :=
  mkWorld (panel W) (tasks W) (S (nextTask W)) (spawned W) (calls W).
Definition handOut (w : WorkerId) (W : World) : World :=
  mkWorld (panel W) (tasks W) (nextTask W) (spawned W ++ [w]) (calls W).

(** [stopProgram], lines 80-93. *)
Definition stopProgram (W : World) : World :=
  let W := onPanel (setActiveKey "info") W in
  let W :=
    match workerRef (panel W) with
    | Some w =>
        (* Terminate web worker *)
        let W := invoke (StopWorker w) W in
        onPanel (setWorkerRef None) W
    | None => W
    end in
  let W := onPanel (setProgramInfo None) W in
  let W := onPanel (setParseError None) W in
  let W := onPanel (setInitializationDuration 0%Z) W in
  let W := onPanel (setReasoningDuration 0%Z) W in
  let W := onPanel (setFactCounts None) W in
  onPanel (setIsProgramRunning false) W.

(** [runProgram] up to its first [await], lines 95-101.  [programText]
    and [inputs] are the values of the render whose handler was clicked. *)
Definition runProgram (W : World) : World :=
  let text := programText (panel W) in
  let captured := inputs (panel W) in
  let W := stopProgram W in
  let W := onPanel (setIsProgramRunning true) W in
  let W := invoke CreateNemoWorker W in
  spawn (suspend (nextTask W) (AwaitCreate text captured) W).

(** The [catch] block and the statement after it, lines 120-128. *)
Definition runFailed (t : nat) (error : Thrown) (W : World) : World :=
  let W := onPanel (setParseError (Some (toString error))) W in
  let W := onPanel (setIsProgramRunning false) W in
  finish t W.

(** [runProgram] from one [await] to the next, lines 101-128.  [None]
    means that the promise cannot settle that way: the value has the wrong
    type for the awaited call, or the worker was handed out before. *)
Definition resumeRun (t : nat) (k : Cont) (r : Settled) (W : World) : option World :=
  match k, r with
  | AwaitTrace _, _ => None
  | _, Rejected error => Some (runFailed t error W)
  | AwaitCreate text captured, Fulfilled (VWorker worker) =>
      if decide (worker ∈ spawned W) then None else
      let W := handOut worker W in
      let W := onPanel (setWorkerRef (Some worker)) W in
      let W := invoke (ParseProgram worker text) W in
      Some (suspend t (AwaitParse worker captured) W)
  | AwaitParse worker captured, Fulfilled (VProgramInfo info) =>
      let W := onPanel (setProgramInfo (Some info)) W in
      let W := invoke (MarkDefaultExports worker) W in
      Some (suspend t (AwaitMark worker captured) W)
  | AwaitMark worker captured, Fulfilled VVoid =>
      match startBindings captured with
      | Throw error => Some (runFailed t error W)
      | Normal bindings =>
          let W := invoke (Start worker bindings) W in
          Some (suspend t (AwaitStart worker) W)
      end
  | AwaitStart worker, Fulfilled (VStartInfo initialization reasoning) =>
      let W := onPanel (setInitializationDuration initialization) W in
      let W := onPanel (setReasoningDuration reasoning) W in
      let W := invoke (GetCounts worker) W in
      Some (suspend t (AwaitCounts worker) W)
  | AwaitCounts worker, Fulfilled (VFactCounts counts) =>
      let W := onPanel (setFactCounts (Some counts)) W in
      let W := onPanel (setIsProgramRunning false) W in
      Some (finish t W)
  | _, _ => None
  end.

(** [isTracingCurrentlyAllowed], lines 131-133. *)
Definition isTracingCurrentlyAllowed (s : State) : bool :=
  bool_decide (programInfo s ≠ None) && negb (isWorkerActive s).

(** The common shape of [traceFactAscii] and [traceFactEvonne] up to the
    [await]: the guard
    [!isTracingCurrentlyAllowed() || workerRef.current === undefined],
    evaluated left to right, then the request on the current worker. *)
Definition traceFact (format : TracingFormat)
    (request : WorkerId → string → Call) (W : World) : World :=
  if negb (isTracingCurrentlyAllowed (panel W)) then W else
  match workerRef (panel W) with
  | None => W
  | Some w =>
      let W := invoke (request w (tracingFactText (panel W))) W in
      spawn (suspend (nextTask W) (AwaitTrace format) W)
  end.

(** Lines 135-143. *)
Definition traceFactAscii : World → World :=
  traceFact ASCII ParseAndTraceFactAscii.

(** Lines 152-160. *)
Definition traceFactEvonne : World → World :=
  traceFact EVONNE ParseAndTraceFactGraphML.

(** The rest of a trace handler, lines 144-149 and 161-166. *)
Definition resumeTrace (t : nat) (format : TracingFormat) (r : Settled)
    (W : World) : option World :=
  match r with
  | Fulfilled (VString tracingResult) =>
      let W := onPanel (setTracingFormat format) W in
      let W := onPanel (setTracingResult (Some tracingResult)) W in
      Some (finish t W)
  | Fulfilled _ => None
  | Rejected error =>
      let W := onPanel (setTracingFormat NONE) W in
      let W := onPanel (setTracingResult (Some (toString error))) W in
      Some (finish t W)
  end.

Definition resume (t : nat) (k : Cont) (r : Settled) (W : World) : option World :=
  match k with
  | AwaitTrace format => resumeTrace t format r W
  | _ => resumeRun t k r W
  end.

(** ** Row handlers *)

(** The template [`${predicate}(${row.join(",")})`], line 439.  The
    values of a row are taken as the strings [join] converts them to. *)
Definition factText (predicate : string) (row : list string) : string :=
  predicate +:+ "(" +:+ String.concat "," row +:+ ")".

(** [onClickRow], lines 434-441. *)
Definition onClickRow (predicate : string) (row : list string)
    (W : World) : World :=
  if negb (isTracingCurrentlyAllowed (panel W)) then W else
  let W := onPanel (setIsTracingModalShown true) W in
  onPanel (setTracingFactText (factText predicate row)) W.

(** The text field and the buttons of an input are created per row by
    [inputs.map((input, inputIndex) => ...)], line 197, and their
    handlers index the array of the render that created them.  So an
    edit of row [i] happens only in a registry that has a row [i];
    without one there is no such control and nothing happens. *)
Definition rowEdit (i : nat)
    (edit : list (Slot InputBinding) → list (Slot InputBinding))
    (s : State) : State :=
  if decide (i < length (inputs s)) then setInputs (edit (inputs s)) s else s.

(** "Open tracing panel", lines 312-317: the item is disabled while
    tracing is not allowed, and a disabled item does not call its
    handler. *)
Definition openTracingPanel (W : World) : World :=
  if negb (isTracingCurrentlyAllowed (panel W)) then W else
  onPanel (setIsTracingModalShown true) W.

(** [onSelect] of the tabs, lines 341-346: [null] is ignored. *)
Definition onSelect (newActiveKey : option string) (W : World) : World :=
  match newActiveKey with
  | None => W
  | Some key => onPanel (setActiveKey key) W
  end.

(** ** The event loop *)

Inductive Event :=
| ClickRun                       (* "Run program" / "Re-run program" *)
| ClickStop                      (* "Stop" *)
| ClickTraceAscii                (* "ASCII Trace" *)
| ClickTraceEvonne               (* "Evonne Trace" *)
| Settle (t : nat) (r : Settled) (* the promise task [t] awaits settles *)
| WorkerActive (b : bool)        (* the callback given to [createNemoWorker] *)
| AddFile (fileList : list File.t)
| ReplaceAt (i : nat) (u : InputRegistry.PartialUpdate)
| RemoveAt (i : nat)
| TypeFact (text : string)       (* the "Fact that should be traced" field *)
| EditProgram (text : string)    (* the program text in the store *)
| ClickRow (predicate : string) (row : list string) (* a row of results *)
| OpenTracingPanel               (* "Open tracing panel" *)
| CloseTracingPanel              (* the dialog is hidden or closed *)
| SelectTab (newActiveKey : option string).

Definition step (W : World) (e : Event) : option World :=
  match e with
  | ClickRun => Some (runProgram W)
  | ClickStop => Some (stopProgram W)
  | ClickTraceAscii => Some (traceFactAscii W)
  | ClickTraceEvonne => Some (traceFactEvonne W)
  | Settle t r => k ← tasks W !! t; resume t k r W
  | WorkerActive b => Some (onPanel (setIsWorkerActive b) W)
  | AddFile fileList =>
      Some (onPanel (λ s, setInputs
        (InputRegistry.chosen fileList (InputRegistry.add (inputs s)) (inputs s)) s) W)
  | ReplaceAt i u =>
      Some (onPanel (rowEdit i (λ inputs, InputRegistry.replaceAt inputs i u)) W)
  | RemoveAt i =>
      Some (onPanel (rowEdit i (λ inputs, InputRegistry.removeAt inputs i)) W)
  | TypeFact text => Some (onPanel (setTracingFactText text) W)
  | EditProgram text => Some (onPanel (setProgramText text) W)
  | ClickRow predicate row => Some (onClickRow predicate row W)
  | OpenTracingPanel => Some (openTracingPanel W)
  | CloseTracingPanel => Some (onPanel (setIsTracingModalShown false) W)
  | SelectTab newActiveKey => Some (onSelect newActiveKey W)
  end.

Fixpoint exec (W : World) (es : list Event) : option World :=
  match es with
  | [] => Some W
  | e :: es => W' ← step W e; exec W' es
  end.

(** ** What is observed of a world *)

(** The component has no phase variable.  The phase of the specification
    is read off the cells that the render branches on: the spinner and
    the "Stop" button ([isProgramRunning]), the "Errors" block
    ([parseError]) and the enabled result tabs ([factCounts]). *)
Inductive Phase := Idle | Running | Ready | Failed.

Definition phase (s : State) : Phase :=
  if isProgramRunning s then Running
  else if parseError s is Some _ then Failed
  else if factCounts s is Some _ then Ready
  else Idle.

(** Workers on which [stop] was invoked. *)
Definition stoppedWorkers (cs : list Call) : list WorkerId :=
  omap (λ c, match c with StopWorker w => Some w | _ => None end) cs.

(** Workers that were handed out and never stopped. *)
Definition live (W : World) : list WorkerId :=
  filter (λ w, w ∉ stoppedWorkers (calls W)) (spawned W).

(** The worker a suspended [runProgram] holds in its local variable. *)
Definition capturedWorker (k : Cont) : option WorkerId :=
  match k with
  | AwaitParse w _ | AwaitMark w _ | AwaitStart w | AwaitCounts w => Some w
  | AwaitCreate _ _ | AwaitTrace _ => None
  end.

(** The cells that make up the session record of the specification. *)
Definition session (s : State)
    : option NemoProgramInfo * Z * Z * option FactCounts.t * option string :=
  (programInfo s, initializationDuration s, reasoningDuration s,
   factCounts s, parseError s).

(** ** Result tabs *)

(** The default comparison of [Array.prototype.sort] on strings: by code
    unit, a proper prefix first. *)
Fixpoint codeUnitsLe (a b : string) : bool :=
  match a, b with
  | EmptyString, _ => true
  | String _ _, EmptyString => false
  | String x a', String y b' =>
      if (Ascii.N_of_ascii x <? Ascii.N_of_ascii y)%N then true
      else if (Ascii.N_of_ascii x =? Ascii.N_of_ascii y)%N then codeUnitsLe a' b'
      else false
  end.

Definition precedes (a b : string) : Prop := codeUnitsLe a b.

(** [outputPredicates.sort()].  The specification of [sort] fixes the
    result for a total order on distinct keys; equal strings are
    indistinguishable, so any correct algorithm gives this list. *)
Definition sort (names : list string) : list string :=
  merge_sort precedes names.

Record Tab := {
  eventKey : string;
  title : string;
  disabled : bool;
}.

(** The property names that a plain object inherits from
    [Object.prototype]. *)
Definition objectPrototypeKeys : list string :=
  ["constructor"; "hasOwnProperty"; "isPrototypeOf"; "propertyIsEnumerable";
   "toLocaleString"; "toString"; "valueOf"; "__proto__";
   "__defineGetter__"; "__defineSetter__";
   "__lookupGetter__"; "__lookupSetter__"].

(** [key in object], for a plain object with the own properties [own]:
    an own property or an inherited one. *)
Definition hasProperty (own : gmap string N) (key : string) : bool :=
  bool_decide (is_Some (own !! key))
  || bool_decide (key ∈ objectPrototypeKeys).

(** [`${object[key]}`] for a key the object has: a count of its own, a
    row count printed in decimal, or else the inherited member converted
    to a string.  How a built-in function prints is the engine's
    business; [inheritedText] gives that text. *)
Definition propertyText (inheritedText : string → string)
    (own : gmap string N) (key : string) : string :=
  match own !! key with
  | Some n => pretty n
  | None => inheritedText key
  end.

(** Lines 371-376: the predicate, followed in parentheses by what
    [factCounts.outputPredicates[predicate]] prints as, when [factCounts]
    is there and [predicate in factCounts.outputPredicates]. *)
Definition tabTitle (inheritedText : string → string)
    (counts : option FactCounts.t) (predicate : string) : string :=
  predicate +:+
  match counts with
  | Some c =>
      if hasProperty (FactCounts.outputPredicates c) predicate
      then " (" +:+
           propertyText inheritedText (FactCounts.outputPredicates c) predicate
           +:+ ")"
      else ""
  | None => ""
  end.

(** Lines 366-384.  (The component sorts the array held in [programInfo]
    in place; the order of that array is read nowhere else.) *)
Definition resultTabs (inheritedText : string → string) (s : State)
    : list Tab :=
  match programInfo s with
  | None => []
  | Some info =>
      (λ predicate,
         {| eventKey := "predicate-" +:+ predicate;
            title := tabTitle inheritedText (factCounts s) predicate;
            disabled := bool_decide (factCounts s = None) |})
      <$> sort (outputPredicates info)
  end.

(** ** Concrete data used in the examples *)

Module Sample.
Definition info : NemoProgramInfo :=
  {| edbPredicates := ["e"]; outputPredicates := ["q"; "p"];
     parsingDuration := 1%Z |}.
Definition counts : FactCounts.t :=
  FactCounts.mk (<["p" := 3%N]> (<["q" := 0%N]> ∅)) 3%N.
Definition r1 : File.t := File.mk "r1" 10%N.
Definition boom : Thrown := {| toString := "data loading failed" |}.

(** How one engine prints the members of [Object.prototype]. *)
Definition nativeText (key : string) : string :=
  if decide (key = "__proto__") then "[object Object]"
  else if decide (key = "constructor")
       then "function Object() { [native code] }"
       else "function " +:+ key +:+ "() { [native code] }".

(** A complete, undisturbed run (scenario A of the specification). *)
Definition fullRun : list Event :=
  [AddFile [r1]; ClickRun;
   Settle 0 (Fulfilled (VWorker 1));
   Settle 0 (Fulfilled (VProgramInfo info));
   Settle 0 (Fulfilled VVoid);
   Settle 0 (Fulfilled (VStartInfo 5%Z 12%Z));
   Settle 0 (Fulfilled (VFactCounts counts))].

(** "Stop" is clicked while the run awaits [parseProgram]. *)
Definition stopWhileParsing : list Event :=
  [ClickRun; Settle 0 (Fulfilled (VWorker 1)); ClickStop].

(** "Re-run program" is clicked while the first run still awaits
    [createNemoWorker]; both workers arrive, then "Stop" is clicked.
    Worker 1 is handed out and [stop] is never invoked on it. *)
Definition overlappingRuns : list Event :=
  [ClickRun; ClickRun;
   Settle 0 (Fulfilled (VWorker 1));
   Settle 1 (Fulfilled (VWorker 2))].


(** Two bindings named "r1", and one without a file. *)
Definition shadowing : list InputBinding :=
  [ {| resource := Some "r1"; file := Some (File.mk "old.csv" 10%N) |};
    {| resource := Some "r2"; file := None |};
    {| resource := Some "r1"; file := Some (File.mk "new.csv" 20%N) |} ].

(** The parse result of the first run arrives after the "Stop". *)
Definition lateParse : Event :=
  Settle 0 (Fulfilled (VProgramInfo info)).
End Sample.

(** ** Notions used in the statements *)

(** A click on a trace button is accepted when it makes a request go out
    to a worker. *)
Definition accepted (click : World → World) (W : World) : Prop :=
  calls (click W) ≠ calls W.

(** The stored trace result: its format tag and its payload. *)
Definition traceSlot (s : State) : TracingFormat * option string :=
  (tracingFormat s, tracingResult s).

(** No task of the world is a [runProgram] that still awaits
    [createNemoWorker]. *)
Definition noneAcquiring (W : World) : Prop :=
  ∀ t text captured, tasks W !! t ≠ Some (AwaitCreate text captured).

(** Worlds produced by event sequences in which "Run program" is never
    clicked while an earlier run still awaits its worker.  Everything
    else, "Stop" included, may happen at any time. *)
Inductive orderly : World → Prop :=
| orderly_initial text : orderly (initialWorld text)
| orderly_step W e W' :
    orderly W →
    (e = ClickRun → noneAcquiring W) →
    step W e = Some W' →
    orderly W'.

(** The file that the last binding named [r] with a file carries, if
    there is one: what "later bindings shadow earlier ones" selects. *)
Definition lastFileFor (r : string) (bs : list InputBinding) : option File.t :=
  last (omap (λ b,
    if decide (propertyKey (resource b) = r) then file b else None) bs).

(** No worker is referenced and [stop] was invoked on every worker handed
    out so far. *)
Definition quiet (W : World) : Prop :=
  workerRef (panel W) = None ∧
  ∀ w, w ∈ spawned W → w ∈ stoppedWorkers (calls W).

(** The invariant of orderly worlds: workers are handed out once; a
    worker is stopped or is the referenced one; while a run awaits its
    worker the world is quiet, and at most one run does so. *)
Definition workerInvariant (W : World) : Prop :=
  NoDup (spawned W) ∧
  (∀ w, w ∈ spawned W →
     w ∈ stoppedWorkers (calls W) ∨ workerRef (panel W) = Some w) ∧
  (∀ t text c, tasks W !! t = Some (AwaitCreate text c) → quiet W) ∧
  (∀ t1 t2 text1 c1 text2 c2,
     tasks W !! t1 = Some (AwaitCreate text1 c1) →
     tasks W !! t2 = Some (AwaitCreate text2 c2) → t1 = t2).

(** [W'] differs from [W] in nothing the invariant depends on. *)
Definition sameWorkers (W W' : World) : Prop :=
  spawned W' = spawned W ∧
  workerRef (panel W') = workerRef (panel W) ∧
  stoppedWorkers (calls W') = stoppedWorkers (calls W) ∧
  (∀ t text c, tasks W' !! t = Some (AwaitCreate text c) →
     tasks W !! t = Some (AwaitCreate text c)).

(** The events [es], played from [W], never click "Run program" while a
    run awaits its worker. *)
Fixpoint guarded (W : World) (es : list Event) : Prop :=
  match es with
  | [] => True
  | e :: es =>
      (e = ClickRun → noneAcquiring W) ∧
      match step W e with
      | Some W' => guarded W' es
      | None => True
      end
  end.

(** The pair that [inputs.map] makes of a binding. *)
Definition pairOf (b : InputBinding) : option string * option File.t :=
  (resource b, file b).

(** Events that only edit the input registry. *)
Definition isRegistryEdit (e : Event) : Prop :=
  match e with
  | AddFile _ | ReplaceAt _ _ | RemoveAt _ => True
  | _ => False
  end.

(** The first render with one chosen input file. *)
Definition withOneInput : World :=
  onPanel (setInputs (InputRegistry.add [] Sample.r1)) (initialWorld "p(1).").

(** ** The worlds an undisturbed run passes through *)

(** After [createNemoWorker] handed worker [w] to the run clicked in [W]. *)
Definition created (W : World) (w : WorkerId) : World :=
  suspend (nextTask W) (AwaitParse w (inputs (panel W)))
    (invoke (ParseProgram w (programText (panel W)))
       (onPanel (setWorkerRef (Some w)) (handOut w (runProgram W)))).

(** After [parseProgram] returned [info]. *)
Definition parsed (W : World) (w : WorkerId) (info : NemoProgramInfo) : World :=
  suspend (nextTask W) (AwaitMark w (inputs (panel W)))
    (invoke (MarkDefaultExports w)
       (onPanel (setProgramInfo (Some info)) (created W w))).

(** After [markDefaultExports] returned and [start] was invoked. *)
Definition started (W : World) (w : WorkerId) (info : NemoProgramInfo)
    (bindings : gmap string File.t) : World :=
  suspend (nextTask W) (AwaitStart w)
    (invoke (Start w bindings) (parsed W w info)).

(** After [start] returned the two durations. *)
Definition timed (W : World) (w : WorkerId) (info : NemoProgramInfo)
    (bindings : gmap string File.t) (a b : Z) : World :=
  suspend (nextTask W) (AwaitCounts w)
    (invoke (GetCounts w)
       (onPanel (setReasoningDuration b)
          (onPanel (setInitializationDuration a) (started W w info bindings)))).

(** ** Registries *)

(** A registry as the declared type of [inputs] has it: every slot holds
    a binding with both properties. *)
Definition complete (inputs : list (Slot InputBinding)) : Prop :=
  Forall (λ s, ∃ r f, s = Val {| resource := Some r; file := Some f |}) inputs.
(** ** Handlers and views outside the session controller *)

(** What the "Tracing results" block shows, lines 495-505. *)
Inductive TraceView :=
| NoResults
| EvonneGraph (data : string)
| AsciiCode (text : string).

Definition tracingResultsView (s : State) : TraceView :=
  match tracingResult s with
  | None => NoResults
  | Some result =>
      match tracingFormat s with
      | NONE => NoResults
      | EVONNE => EvonneGraph result
      | ASCII => AsciiCode result
      end
  end.

(** The effect of [programInfo.outputPredicates.sort()], line 359: the
    array held in the state object is sorted in place. *)
Definition sortedInPlace (s : State) : State :=
  setProgramInfo
    ((λ info, {| edbPredicates := edbPredicates info;
                 outputPredicates := sort (outputPredicates info);
                 parsingDuration := parsingDuration info |})
     <$> programInfo s) s.
(** ** Reachable worlds and the order of worker operations *)

(** Worlds that some sequence of events produces from the first render. *)
Definition reachable (W : World) : Prop :=
  ∃ text es, exec (initialWorld text) es = Some W.

(** What the log holds before an operation is invoked. *)
Definition precedent (before : list Call) (c : Call) : Prop :=
  match c with
  | CreateNemoWorker | ParseProgram _ _ => True
  | MarkDefaultExports w => ∃ text, ParseProgram w text ∈ before
  | Start w _ => MarkDefaultExports w ∈ before
  | GetCounts w => ∃ bindings, Start w bindings ∈ before
  | ParseAndTraceFactAscii w _ | ParseAndTraceFactGraphML w _
  | StopWorker w =>
      (w ∉ stoppedWorkers before) ∧ ∃ text, ParseProgram w text ∈ before
  end.

(** Every entry of the log has its precedent in the entries before it. *)
Definition inOrder (cs : list Call) : Prop :=
  ∀ l1 c l2, cs = l1 ++ c :: l2 → precedent l1 c.

(** What a suspended run has already invoked on its worker. *)
Definition stage (k : Cont) (cs : list Call) : Prop :=
  match k with
  | AwaitParse w _ => ∃ text, ParseProgram w text ∈ cs
  | AwaitMark w _ => MarkDefaultExports w ∈ cs
  | AwaitStart w => ∃ bindings, Start w bindings ∈ cs
  | _ => True
  end.

(** The invariant of all reachable worlds. *)
Definition protocolInvariant (W : World) : Prop :=
  (∀ w, w ∈ stoppedWorkers (calls W) → w ∈ spawned W) ∧
  (∀ w, workerRef (panel W) = Some w →
     w ∈ spawned W ∧ (w ∉ stoppedWorkers (calls W)) ∧
     ∃ text, ParseProgram w text ∈ calls W) ∧
  (∀ t k, tasks W !! t = Some k → stage k (calls W)) ∧
  inOrder (calls W).

(** * Properties *)

Ltac wsimpl :=
  cbn [panel tasks nextTask spawned calls
       onPanel invoke suspend finish spawn handOut runFailed] in *.

Ltac ssimpl :=
  cbn [inputs activeKey workerRef programInfo parseError
       initializationDuration reasoningDuration factCounts isProgramRunning
       isWorkerActive tracingFactText tracingResult tracingFormat
       isTracingModalShown programText
       setInputs setActiveKey setWorkerRef setProgramInfo setParseError
       setInitializationDuration setReasoningDuration setFactCounts
       setIsProgramRunning setIsWorkerActive setTracingFactText
       setTracingResult setTracingFormat setIsTracingModalShown
       setProgramText] in *.

(** ** [stopProgram] *)

Section stop_facts.
Implicit Types W : World.

Lemma stopProgram_tasks W : tasks (stopProgram W) = tasks W.
Proof. unfold stopProgram; simpl. by destruct (workerRef (panel W)). Qed.

Lemma stopProgram_nextTask W : nextTask (stopProgram W) = nextTask W.
Proof. unfold stopProgram; simpl. by destruct (workerRef (panel W)). Qed.

Lemma stopProgram_spawned W : spawned (stopProgram W) = spawned W.
Proof. unfold stopProgram; simpl. by destruct (workerRef (panel W)). Qed.

Lemma stopProgram_calls W :
  calls (stopProgram W) =
  calls W ++ match workerRef (panel W) with
             | Some w => [StopWorker w]
             | None => []
             end.
Proof.
  unfold stopProgram; simpl.
  destruct (workerRef (panel W)); simpl; by rewrite ?app_nil_r.
Qed.

Lemma stopProgram_panel W :
  panel (stopProgram W) =
  mkState (inputs (panel W)) "info" None None None 0%Z 0%Z None false
    (isWorkerActive (panel W)) (tracingFactText (panel W))
    (tracingResult (panel W)) (tracingFormat (panel W))
    (isTracingModalShown (panel W)) (programText (panel W)).
Proof.
  destruct W as [[] ? ? ? ?]; unfold stopProgram; simpl.
  by destruct workerRef0.
Qed.
End stop_facts.

(** C6.  [stopProgram] is idempotent: a second call in a row changes
    nothing at all, neither a state cell, nor the reference, nor the log
    of worker operations (the reference is already empty, so no second
    [stop] is sent), nor the suspended handlers. *)
Theorem stopProgram_idempotent (W : World) :
  stopProgram (stopProgram W) = stopProgram W.
Proof.
  destruct W as [[] ? ? ? ?]; unfold stopProgram; simpl.
  by destruct workerRef0.
Qed.

(** Closed decidable facts are settled by evaluation. *)
Ltac decide_closed :=
  match goal with
  | |- ?P => apply (bool_decide_eq_true_1 P); vm_compute; reflexivity
  end.

(** ** Tracing guard *)

Lemma snoc_ne {A} (l : list A) (x : A) : l ++ [x] ≠ l.
Proof.
  intros H. apply (f_equal length) in H.
  rewrite length_app in H. simpl in H. lia.
Qed.

Lemma traceFact_cases format request (W : World) :
  (programInfo (panel W) ≠ None ∧ isWorkerActive (panel W) = false ∧
   ∃ w, workerRef (panel W) = Some w ∧
     traceFact format request W =
     spawn (suspend (nextTask W) (AwaitTrace format)
       (invoke (request w (tracingFactText (panel W))) W)))
  ∨ ((programInfo (panel W) = None ∨ isWorkerActive (panel W) = true ∨
      workerRef (panel W) = None) ∧
     traceFact format request W = W).
Proof.
  unfold traceFact, isTracingCurrentlyAllowed.
  destruct (programInfo (panel W)) as [info|]; simpl;
    [|right; split; [by left|done]].
  destruct (isWorkerActive (panel W)); simpl;
    [right; split; [right; by left|done]|].
  destruct (workerRef (panel W)) as [w|]; simpl.
  - left. repeat split; [done|]. by exists w.
  - right. split; [right; by right|done].
Qed.

Lemma traceFact_accepted format request (W : World) :
  accepted (traceFact format request) W ↔
  programInfo (panel W) ≠ None ∧ isWorkerActive (panel W) = false ∧
  workerRef (panel W) ≠ None.
Proof.
  unfold accepted.
  destruct (traceFact_cases format request W)
    as [(Hi & Hb & w & Hw & ->)|[Hno ->]]; simpl.
  - split; [intros _|intros _; apply snoc_ne].
    repeat split; [done..|]. by rewrite Hw.
  - split; [done|]. intros (Hi & Hb & Hw).
    destruct Hno as [?|[?|?]]; congruence.
Qed.

(** C3 (amended).  A trace request goes out exactly when [programInfo] is
    populated, the worker is not busy, and a worker is referenced; and a
    click made while the worker is busy returns at once, leaving the
    whole world as it was: no request, no suspended handler, the stored
    trace result and format untouched. *)
Theorem trace_accepted_iff (W : World) :
  (accepted traceFactAscii W ↔
     programInfo (panel W) ≠ None ∧ isWorkerActive (panel W) = false ∧
     workerRef (panel W) ≠ None) ∧
  (accepted traceFactEvonne W ↔
     programInfo (panel W) ≠ None ∧ isWorkerActive (panel W) = false ∧
     workerRef (panel W) ≠ None) ∧
  (isWorkerActive (panel W) = true →
     traceFactAscii W = W ∧ traceFactEvonne W = W).
Proof.
  split; [apply traceFact_accepted|].
  split; [apply traceFact_accepted|].
  intros Hb. unfold traceFactAscii, traceFactEvonne.
  split.
  - destruct (traceFact_cases ASCII ParseAndTraceFactAscii W)
      as [(_ & Hb' & _)|[_ ->]]; [congruence|done].
  - destruct (traceFact_cases EVONNE ParseAndTraceFactGraphML W)
      as [(_ & Hb' & _)|[_ ->]]; [congruence|done].
Qed.

(** C10.  Without a referenced worker both trace handlers return at
    once, whatever [programInfo] and the busy flag are: the world is
    unchanged, so no worker is contacted and the stored trace result and
    format stay as they were. *)
Theorem trace_needs_worker (W : World) :
  workerRef (panel W) = None →
  traceFactAscii W = W ∧ traceFactEvonne W = W.
Proof.
  intros Hw. unfold traceFactAscii, traceFactEvonne.
  split.
  - destruct (traceFact_cases ASCII ParseAndTraceFactAscii W)
      as [(_ & _ & w & Hw' & _)|[_ ->]]; [congruence|done].
  - destruct (traceFact_cases EVONNE ParseAndTraceFactGraphML W)
      as [(_ & _ & w & Hw' & _)|[_ ->]]; [congruence|done].
Qed.

(** C3, as stated, fails.  After "Stop" the parse result of the stopped
    run still arrives and populates [programInfo] while the reference is
    empty: [programInfo] is populated and the worker is not busy, yet
    neither trace button sends anything.  In the second sequence the
    late result comes from worker 1, on which [stop] was never invoked. *)
Lemma trace_rejected_though_idle_and_parsed :
  (∃ W, exec (initialWorld "")
          (Sample.stopWhileParsing ++ [Sample.lateParse]) = Some W ∧
        programInfo (panel W) = Some Sample.info ∧
        isWorkerActive (panel W) = false ∧
        (¬ accepted traceFactAscii W) ∧ (¬ accepted traceFactEvonne W)) ∧
  (∃ W, exec (initialWorld "")
          (Sample.overlappingRuns ++ [ClickStop; Sample.lateParse]) = Some W ∧
        programInfo (panel W) = Some Sample.info ∧
        isWorkerActive (panel W) = false ∧
        (1 ∉ stoppedWorkers (calls W)) ∧
        (¬ accepted traceFactAscii W) ∧ (¬ accepted traceFactEvonne W)).
Proof.
  split; eexists; (split; [vm_compute; reflexivity|]).
  - repeat split; intros H; by apply H.
  - repeat split; try (intros H; by apply H).
    decide_closed.
Qed.

Lemma trace_accepted_iff_witness :
  ∃ W0 W,
    exec (initialWorld "p(1).") Sample.fullRun = Some W0 ∧
    step W0 (WorkerActive true) = Some W ∧
    accepted traceFactAscii W0 ∧
    isWorkerActive (panel W) = true ∧
    traceFactAscii W = W ∧ traceFactEvonne W = W.
Proof.
  eexists; eexists.
  split; [vm_compute; reflexivity|].
  split; [vm_compute; reflexivity|].
  split.
  - apply (proj1 (trace_accepted_iff _)). by repeat split.
  - split; [reflexivity|].
    apply (proj2 (proj2 (trace_accepted_iff _))). reflexivity.
Defined.

Lemma trace_needs_worker_witness :
  ∃ W,
    exec (initialWorld "")
      (Sample.stopWhileParsing ++ [Sample.lateParse]) = Some W ∧
    programInfo (panel W) = Some Sample.info ∧
    isWorkerActive (panel W) = false ∧
    workerRef (panel W) = None ∧
    traceFactAscii W = W ∧ traceFactEvonne W = W.
Proof.
  eexists.
  split; [vm_compute; reflexivity|].
  do 3 (split; [reflexivity|]).
  apply trace_needs_worker. reflexivity.
Defined.

(** ** Row handlers *)

Lemma rowEdit_cases i edit (s : State) :
  rowEdit i edit s = s ∨
  (i < length (inputs s) ∧ rowEdit i edit s = setInputs (edit (inputs s)) s).
Proof. unfold rowEdit. case_decide; [by right|by left]. Qed.

Lemma rowEdit_keeps {A} (cell : State → A) i edit (s : State) :
  (∀ v s', cell (setInputs v s') = cell s') →
  cell (rowEdit i edit s) = cell s.
Proof. intros H. by destruct (rowEdit_cases i edit s) as [->|[_ ->]]. Qed.

Lemma onClickRow_cases predicate row (W : World) :
  onClickRow predicate row W = W ∨
  onClickRow predicate row W =
    onPanel (setTracingFactText (factText predicate row))
      (onPanel (setIsTracingModalShown true) W).
Proof.
  unfold onClickRow.
  destruct (negb (isTracingCurrentlyAllowed (panel W))); [by left|by right].
Qed.

Lemma openTracingPanel_cases (W : World) :
  openTracingPanel W = W ∨
  openTracingPanel W = onPanel (setIsTracingModalShown true) W.
Proof.
  unfold openTracingPanel.
  destruct (negb (isTracingCurrentlyAllowed (panel W))); [by left|by right].
Qed.

(** ** The stored trace result across [stopProgram] and [runProgram] *)

Lemma finish_traceSlot t W : traceSlot (panel (finish t W)) = traceSlot (panel W).
Proof. done. Qed.

Lemma runFailed_traceSlot t e W :
  traceSlot (panel (runFailed t e W)) = traceSlot (panel W).
Proof. done. Qed.

Lemma resumeRun_traceSlot t k r W W' :
  resumeRun t k r W = Some W' → traceSlot (panel W') = traceSlot (panel W).
Proof.
  unfold resumeRun. intros H.
  destruct k, r as [[]|]; simplify_eq/=; try done.
  - by case_decide; simplify_eq/=.
  - by destruct (startBindings captured); simplify_eq/=.
Qed.

Lemma traceFact_panel format request W :
  panel (traceFact format request W) = panel W.
Proof.
  destruct (traceFact_cases format request W)
    as [(_ & _ & w & _ & ->)|[_ ->]]; done.
Qed.

(** C5, as stated, fails: a trace result obtained in one session is
    still stored, with its format, after "Stop", and is still there
    after a following "Run program". *)
Lemma trace_result_outlives_session :
  ∃ W1 W2,
    exec (initialWorld "p(1).")
      (Sample.fullRun ++
       [TypeFact "p(1)"; ClickTraceAscii;
        Settle 1 (Fulfilled (VString "p(1) is a fact")); ClickStop])
      = Some W1 ∧
    traceSlot (panel W1) = (ASCII, Some "p(1) is a fact") ∧
    phase (panel W1) = Idle ∧
    step W1 ClickRun = Some W2 ∧
    traceSlot (panel W2) = (ASCII, Some "p(1) is a fact").
Proof.
  eexists; eexists.
  split; [vm_compute; reflexivity|].
  split; [reflexivity|]. split; [reflexivity|].
  split; [vm_compute; reflexivity|]. reflexivity.
Qed.

(** C5 (amended).  Neither [stopProgram] nor [runProgram] touches the
    stored trace result: format and payload are after the call what they
    were before it.  The only event that changes them is the settling of
    a suspended trace handler. *)
Theorem trace_slot_only_changed_by_trace (W : World) :
  traceSlot (panel (stopProgram W)) = traceSlot (panel W) ∧
  traceSlot (panel (runProgram W)) = traceSlot (panel W) ∧
  (∀ e W', step W e = Some W' →
     traceSlot (panel W') ≠ traceSlot (panel W) →
     ∃ t format r, e = Settle t r ∧ tasks W !! t = Some (AwaitTrace format)).
Proof.
  assert (Hstop : ∀ V, traceSlot (panel (stopProgram V)) = traceSlot (panel V))
    by (intros V; by rewrite stopProgram_panel).
  assert (Hrun : ∀ V, traceSlot (panel (runProgram V)) = traceSlot (panel V))
    by (intros V; transitivity (traceSlot (panel (stopProgram V)));
        [reflexivity|apply Hstop]).
  split; [apply Hstop|]. split; [apply Hrun|].
  intros e W' Hstep Hne.
  destruct e; cbn [step] in Hstep;
    try (injection Hstep as <-; exfalso; apply Hne).
  - apply Hrun.
  - apply Hstop.
  - apply (f_equal traceSlot), traceFact_panel.
  - apply (f_equal traceSlot), traceFact_panel.
  - destruct (tasks W !! t) as [k|] eqn:Hk; simplify_eq/=.
    destruct k as [? ?|? ?|? ?|?|?|format];
      try (cbn [resume] in Hstep; apply resumeRun_traceSlot in Hstep;
           congruence).
    by exists t, format, r.
  - reflexivity.
  - reflexivity.
  - by apply (rowEdit_keeps traceSlot).
  - by apply (rowEdit_keeps traceSlot).
  - reflexivity.
  - reflexivity.
  - by destruct (onClickRow_cases predicate row W) as [->| ->].
  - by destruct (openTracingPanel_cases W) as [->| ->].
  - reflexivity.
  - by destruct newActiveKey.
Qed.

Lemma trace_slot_only_changed_by_trace_witness :
  ∃ W W',
    exec (initialWorld "p(1).")
      (Sample.fullRun ++ [TypeFact "p(1)"; ClickTraceEvonne]) = Some W ∧
    step W (Settle 1 (Fulfilled (VString "<graphml/>"))) = Some W' ∧
    traceSlot (panel W') = (EVONNE, Some "<graphml/>") ∧
    ∃ t format r,
      Settle 1 (Fulfilled (VString "<graphml/>")) = Settle t r ∧
      tasks W !! t = Some (AwaitTrace format).
Proof.
  eexists; eexists.
  split; [vm_compute; reflexivity|].
  split; [vm_compute; reflexivity|].
  split; [reflexivity|].
  eapply (proj2 (proj2 (trace_slot_only_changed_by_trace _)));
    [vm_compute; reflexivity|discriminate].
Defined.

(** ** One undisturbed run *)

Lemma exec_cons W e es W' :
  step W e = Some W' → exec W (e :: es) = exec W' es.
Proof. intros H. cbn [exec]. by rewrite H. Qed.

Lemma exec_app W es1 es2 :
  exec W (es1 ++ es2) = exec W es1 ≫= λ W', exec W' es2.
Proof.
  revert W. induction es1 as [|e es1 IH]; intros W; [done|].
  cbn [app exec]. destruct (step W e) as [W'|]; [apply IH|done].
Qed.

Lemma step_settle W t k r :
  tasks W !! t = Some k → step W (Settle t r) = resume t k r W.
Proof. intros H. cbn [step]. by rewrite H. Qed.

Lemma runProgram_task W :
  tasks (runProgram W) !! nextTask W =
  Some (AwaitCreate (programText (panel W)) (inputs (panel W))).
Proof.
  unfold runProgram. wsimpl. rewrite stopProgram_nextTask.
  apply lookup_insert_eq.
Qed.

Lemma runProgram_panel W :
  panel (runProgram W) = setIsProgramRunning true (panel (stopProgram W)).
Proof. reflexivity. Qed.

Lemma runProgram_calls W :
  calls (runProgram W) = calls (stopProgram W) ++ [CreateNemoWorker].
Proof. reflexivity. Qed.

Lemma runProgram_spawned W : spawned (runProgram W) = spawned W.
Proof. unfold runProgram. wsimpl. apply stopProgram_spawned. Qed.

(** C4.  A run in which worker creation, parsing and the marking of
    exports succeed and [start] is rejected ends with [programInfo] as
    the parser returned it, no fact counts, both timings zero, the
    rejection's text in [parseError], phase [Failed], and the handler
    finished: the last operation it invoked is [start], so [getCounts]
    is never requested. *)
Theorem run_failing_at_start (W : World) (w : WorkerId)
    (info : NemoProgramInfo) (bindings : gmap string File.t) (e : Thrown) :
  w ∉ spawned W →
  startBindings (inputs (panel W)) = Normal bindings →
  let t := nextTask W in
  ∃ W',
    exec W [ClickRun;
            Settle t (Fulfilled (VWorker w));
            Settle t (Fulfilled (VProgramInfo info));
            Settle t (Fulfilled VVoid);
            Settle t (Rejected e)] = Some W' ∧
    programInfo (panel W') = Some info ∧
    factCounts (panel W') = None ∧
    initializationDuration (panel W') = 0%Z ∧
    reasoningDuration (panel W') = 0%Z ∧
    parseError (panel W') = Some (toString e) ∧
    phase (panel W') = Failed ∧
    tasks W' !! t = None ∧
    calls W' = calls (stopProgram W) ++
      [CreateNemoWorker; ParseProgram w (programText (panel W));
       MarkDefaultExports w; Start w bindings].
Proof.
  intros Hw Hb t.
  erewrite exec_cons by reflexivity.
  erewrite exec_cons; cycle 1.
  { rewrite (step_settle _ _ _ _ (runProgram_task W)).
    cbn [resume resumeRun]. rewrite runProgram_spawned.
    by rewrite decide_False. }
  erewrite exec_cons; cycle 1.
  { erewrite step_settle by (wsimpl; apply lookup_insert_eq). reflexivity. }
  erewrite exec_cons; cycle 1.
  { erewrite step_settle by (wsimpl; apply lookup_insert_eq).
    cbn [resume resumeRun]. by rewrite Hb. }
  erewrite exec_cons; cycle 1.
  { erewrite step_settle by (wsimpl; apply lookup_insert_eq). reflexivity. }
  eexists. split; [reflexivity|].
  wsimpl. rewrite runProgram_panel, runProgram_calls, stopProgram_panel.
  unfold phase. ssimpl.
  repeat split.
  - apply lookup_delete_eq.
  - by rewrite <- !app_assoc.
Qed.

Lemma run_failing_at_start_witness :
  ∃ W',
    exec withOneInput
      [ClickRun;
       Settle 0 (Fulfilled (VWorker 1));
       Settle 0 (Fulfilled (VProgramInfo Sample.info));
       Settle 0 (Fulfilled VVoid);
       Settle 0 (Rejected Sample.boom)] = Some W' ∧
    programInfo (panel W') = Some Sample.info ∧
    factCounts (panel W') = None ∧
    initializationDuration (panel W') = 0%Z ∧
    reasoningDuration (panel W') = 0%Z ∧
    parseError (panel W') = Some "data loading failed" ∧
    phase (panel W') = Failed ∧
    tasks W' !! 0 = None ∧
    calls W' = calls (stopProgram withOneInput) ++
      [CreateNemoWorker; ParseProgram 1 "p(1).";
       MarkDefaultExports 1; Start 1 (<["r1" := Sample.r1]> ∅)].
Proof.
  apply (run_failing_at_start withOneInput 1 Sample.info
           (<["r1" := Sample.r1]> ∅) Sample.boom).
  - decide_closed.
  - reflexivity.
Defined.

(** ** A run that is overtaken by "Stop" *)

Lemma resume_ignores_workerRef t k r x W w :
  capturedWorker k = Some w →
  resume t k r (onPanel (setWorkerRef x) W) =
  onPanel (setWorkerRef x) <$> resume t k r W.
Proof.
  intros Hk. destruct k; try discriminate Hk;
    destruct r as [[]|]; cbn [resume resumeRun]; try reflexivity.
  by destruct (startBindings captured).
Qed.

(** C1, as stated, fails.  "Stop" is clicked while the run awaits
    [parseProgram]; the suspended run holds worker 1 while the reference
    is empty.  When the parse result arrives it is written to
    [programInfo], and the run goes on to write both timings and the
    fact counts.  In the second sequence the same happens with a worker
    on which [stop] was never invoked. *)
Lemma stale_run_writes_after_stop :
  (∃ W W1 W2,
     exec (initialWorld "") Sample.stopWhileParsing = Some W ∧
     tasks W !! 0 = Some (AwaitParse 1 []) ∧
     workerRef (panel W) = None ∧
     session (panel W) = (None, 0%Z, 0%Z, None, None) ∧
     step W Sample.lateParse = Some W1 ∧
     session (panel W1) = (Some Sample.info, 0%Z, 0%Z, None, None) ∧
     exec W1 [Settle 0 (Fulfilled VVoid);
              Settle 0 (Fulfilled (VStartInfo 5%Z 12%Z));
              Settle 0 (Fulfilled (VFactCounts Sample.counts))] = Some W2 ∧
     session (panel W2) =
       (Some Sample.info, 5%Z, 12%Z, Some Sample.counts, None) ∧
     workerRef (panel W2) = None) ∧
  (∃ W W1,
     exec (initialWorld "") (Sample.overlappingRuns ++ [ClickStop]) = Some W ∧
     tasks W !! 0 = Some (AwaitParse 1 []) ∧
     workerRef (panel W) = None ∧
     (1 ∉ stoppedWorkers (calls W)) ∧
     step W Sample.lateParse = Some W1 ∧
     session (panel W1) = (Some Sample.info, 0%Z, 0%Z, None, None)).
Proof.
  split.
  - eexists; eexists; eexists.
    split; [vm_compute; reflexivity|].
    do 3 (split; [reflexivity|]).
    split; [vm_compute; reflexivity|].
    split; [reflexivity|].
    split; [vm_compute; reflexivity|].
    split; reflexivity.
  - eexists; eexists.
    split; [vm_compute; reflexivity|].
    do 2 (split; [reflexivity|]).
    split; [decide_closed|].
    split; [vm_compute; reflexivity|].
    reflexivity.
Qed.

(** C1 (amended).  [stopProgram] empties the reference and resets the
    state but cancels nothing: a run suspended with a captured worker
    stays suspended, and its later steps never compare that worker with
    the reference.  When the awaited promise settles after the stop, the
    step does what it always does: a rejection is stored in
    [parseError]; a parse result is stored in [programInfo] and
    [markDefaultExports] is invoked on the captured worker; the timings
    are stored and [getCounts] is invoked; the fact counts are stored. *)
Theorem stale_run_not_cancelled (W : World) (t : nat) (k : Cont)
    (w : WorkerId) :
  tasks W !! t = Some k →
  capturedWorker k = Some w →
  let W1 := stopProgram W in
  tasks W1 !! t = Some k ∧
  workerRef (panel W1) = None ∧
  (∀ r x, resume t k r (onPanel (setWorkerRef x) W1) =
          onPanel (setWorkerRef x) <$> resume t k r W1) ∧
  (∀ e, ∃ W2,
     step W1 (Settle t (Rejected e)) = Some W2 ∧
     parseError (panel W2) = Some (toString e)) ∧
  (∀ c info, k = AwaitParse w c → ∃ W2,
     step W1 (Settle t (Fulfilled (VProgramInfo info))) = Some W2 ∧
     programInfo (panel W2) = Some info ∧
     calls W2 = calls W1 ++ [MarkDefaultExports w]) ∧
  (∀ a b, k = AwaitStart w → ∃ W2,
     step W1 (Settle t (Fulfilled (VStartInfo a b))) = Some W2 ∧
     initializationDuration (panel W2) = a ∧
     reasoningDuration (panel W2) = b ∧
     calls W2 = calls W1 ++ [GetCounts w]) ∧
  (∀ counts, k = AwaitCounts w → ∃ W2,
     step W1 (Settle t (Fulfilled (VFactCounts counts))) = Some W2 ∧
     factCounts (panel W2) = Some counts).
Proof.
  intros Ht Hk W1.
  assert (Ht1 : tasks W1 !! t = Some k)
    by (unfold W1; by rewrite stopProgram_tasks).
  split; [done|].
  split; [unfold W1; by rewrite stopProgram_panel|].
  split; [intros r x; by eapply resume_ignores_workerRef|].
  split.
  { intros e. rewrite (step_settle _ _ _ _ Ht1).
    destruct k; try discriminate Hk; by eexists. }
  split.
  { intros c info ->. rewrite (step_settle _ _ _ _ Ht1). by eexists. }
  split.
  { intros a b ->. rewrite (step_settle _ _ _ _ Ht1). by eexists. }
  intros counts ->. rewrite (step_settle _ _ _ _ Ht1). by eexists.
Qed.

Lemma stale_run_not_cancelled_witness :
  ∃ W,
    exec (initialWorld "") [ClickRun; Settle 0 (Fulfilled (VWorker 1))]
      = Some W ∧
    tasks W !! 0 = Some (AwaitParse 1 []) ∧
    workerRef (panel W) = Some 1 ∧
    workerRef (panel (stopProgram W)) = None ∧
    ∃ W2,
      step (stopProgram W) (Settle 0 (Fulfilled (VProgramInfo Sample.info)))
        = Some W2 ∧
      programInfo (panel W2) = Some Sample.info ∧
      calls W2 = calls (stopProgram W) ++ [MarkDefaultExports 1].
Proof.
  eexists.
  split; [vm_compute; reflexivity|].
  split; [reflexivity|]. split; [reflexivity|].
  match goal with
  | |- workerRef (panel (stopProgram ?V)) = None ∧ _ =>
      pose proof (stale_run_not_cancelled V 0 (AwaitParse 1 []) 1
                    eq_refl eq_refl) as (_ & Href & _ & _ & Hparse & _)
  end.
  split; [exact Href|].
  exact (Hparse [] Sample.info eq_refl).
Defined.

(** ** At most one worker *)

Lemma stoppedWorkers_app cs cs' :
  stoppedWorkers (cs ++ cs') = stoppedWorkers cs ++ stoppedWorkers cs'.
Proof. apply omap_app. Qed.

Lemma sameWorkers_invariant W W' :
  sameWorkers W W' → workerInvariant W → workerInvariant W'.
Proof.
  intros (Hs & Hr & Hc & Ht) (Hnd & Hown & Hq & Hu).
  unfold workerInvariant, quiet. rewrite Hs, Hr, Hc.
  split; [done|]. split; [done|]. split.
  - intros t text c H%Ht. by eapply Hq.
  - intros t1 t2 ?? ?? H1%Ht H2%Ht. by eapply Hu.
Qed.

Ltac same_workers :=
  unfold sameWorkers; wsimpl; ssimpl;
  split; [reflexivity|];
  split; [reflexivity|];
  split; [rewrite ?stoppedWorkers_app; simpl; by rewrite ?app_nil_r|];
  intros ???; rewrite ?lookup_insert, ?lookup_delete;
  try case_decide; naive_solver.

Lemma traceFact_sameWorkers format request W :
  (∀ w s, stoppedWorkers [request w s] = []) →
  sameWorkers W (traceFact format request W).
Proof.
  intros Hreq.
  destruct (traceFact_cases format request W)
    as [(_ & _ & w & _ & ->)|[_ ->]].
  - unfold sameWorkers; wsimpl.
    split; [reflexivity|]. split; [reflexivity|].
    split; [by rewrite stoppedWorkers_app, Hreq, app_nil_r|].
    intros ???; rewrite lookup_insert; case_decide; naive_solver.
  - by unfold sameWorkers.
Qed.

Lemma resume_sameWorkers t k r W W' :
  tasks W !! t = Some k →
  resume t k r W = Some W' →
  (∀ text c w, k = AwaitCreate text c → r ≠ Fulfilled (VWorker w)) →
  sameWorkers W W'.
Proof.
  intros Ht H Hk.
  destruct k; destruct r as [[]|];
    cbn [resume resumeRun resumeTrace] in H; simplify_eq;
    try (by same_workers).
  - by edestruct Hk.
  - destruct (startBindings captured); simplify_eq; same_workers.
Qed.

Lemma stopProgram_quiet W :
  workerInvariant W → quiet (stopProgram W).
Proof.
  intros (_ & Hown & _ & _). split.
  - by rewrite stopProgram_panel.
  - rewrite stopProgram_spawned, stopProgram_calls, stoppedWorkers_app.
    intros w [Hw| ->]%Hown; [set_solver|]. set_solver.
Qed.

Lemma quiet_owned W :
  quiet W → ∀ w, w ∈ spawned W →
    w ∈ stoppedWorkers (calls W) ∨ workerRef (panel W) = Some w.
Proof. intros [_ Hq] w Hw. left. by apply Hq. Qed.

Lemma stopProgram_invariant W :
  workerInvariant W → workerInvariant (stopProgram W).
Proof.
  intros HI. pose proof (stopProgram_quiet W HI) as Hq.
  destruct HI as (Hnd & Hown & Hacq & Hu).
  split; [by rewrite stopProgram_spawned|].
  split; [by apply quiet_owned|].
  split; [done|].
  rewrite stopProgram_tasks. apply Hu.
Qed.

Lemma runProgram_invariant W :
  workerInvariant W → noneAcquiring W → workerInvariant (runProgram W).
Proof.
  intros HI Hnone.
  pose proof (stopProgram_quiet W HI) as [Href Hq].
  assert (Hq' : quiet (runProgram W)).
  { split; [by rewrite runProgram_panel|].
    rewrite runProgram_spawned, runProgram_calls, stoppedWorkers_app.
    rewrite <- stopProgram_spawned. intros w Hw. set_solver. }
  assert (Hnew : ∀ t text c,
    tasks (runProgram W) !! t = Some (AwaitCreate text c) → t = nextTask W).
  { intros t text c. unfold runProgram. wsimpl.
    rewrite stopProgram_nextTask, stopProgram_tasks, lookup_insert.
    case_decide; [done|]. intros Hin. by destruct (Hnone t text c). }
  split; [rewrite runProgram_spawned; apply HI|].
  split; [by apply quiet_owned|].
  split; [done|].
  intros t1 t2 ?? ?? ->%Hnew ->%Hnew. done.
Qed.

Lemma create_invariant W t text c w :
  workerInvariant W →
  tasks W !! t = Some (AwaitCreate text c) →
  w ∉ spawned W →
  workerInvariant
    (suspend t (AwaitParse w c)
       (invoke (ParseProgram w text)
          (onPanel (setWorkerRef (Some w)) (handOut w W)))).
Proof.
  intros (Hnd & Hown & Hacq & Hu) Ht Hw.
  destruct (Hacq _ _ _ Ht) as [_ Hq].
  assert (Hgone : ∀ t' text' c',
    <[t := AwaitParse w c]> (tasks W) !! t' ≠ Some (AwaitCreate text' c')).
  { intros t' text' c'. rewrite lookup_insert. case_decide; [done|].
    intros Hin. by destruct (Hu _ _ _ _ _ _ Ht Hin). }
  unfold workerInvariant, quiet. wsimpl. ssimpl.
  split.
  { apply NoDup_app. split; [done|]. split; [|apply NoDup_singleton].
    intros x Hx ->%list_elem_of_singleton. done. }
  split.
  { intros x [Hx| ->%list_elem_of_singleton]%elem_of_app; [|by right].
    left. rewrite stoppedWorkers_app. apply elem_of_app. left. by apply Hq. }
  split.
  - intros t' text' c' H. by destruct (Hgone _ _ _ H).
  - intros t1 ? ? ? ? ? H. by destruct (Hgone _ _ _ H).
Qed.

Lemma panel_edit_sameWorkers f W :
  workerRef (f (panel W)) = workerRef (panel W) →
  sameWorkers W (onPanel f W).
Proof. intros H. by unfold sameWorkers. Qed.

Lemma orderly_step_invariant W e W' :
  workerInvariant W →
  (e = ClickRun → noneAcquiring W) →
  step W e = Some W' →
  workerInvariant W'.
Proof.
  intros HI Hrun Hstep.
  destruct e; cbn [step] in Hstep; try (injection Hstep as <-).
  - apply runProgram_invariant; auto.
  - by apply stopProgram_invariant.
  - eapply sameWorkers_invariant; [|done]. by apply traceFact_sameWorkers.
  - eapply sameWorkers_invariant; [|done]. by apply traceFact_sameWorkers.
  - destruct (tasks W !! t) as [k|] eqn:Ht; [|done].
    cbn [mbind option_bind] in Hstep.
    assert ((∃ text c w, k = AwaitCreate text c ∧ r = Fulfilled (VWorker w))
            ∨ (∀ text c w, k = AwaitCreate text c → r ≠ Fulfilled (VWorker w)))
      as [(text & c & w & -> & ->)|Hother].
    { destruct k; [|by right..].
      destruct r as [[]|]; [|by right..]. left; eauto. }
    + cbn [resume resumeRun] in Hstep. case_decide; [done|].
      injection Hstep as <-. by apply create_invariant.
    + eapply sameWorkers_invariant; [|done].
      by eapply resume_sameWorkers.
  - eapply sameWorkers_invariant; [|done]. by apply panel_edit_sameWorkers.
  - eapply sameWorkers_invariant; [|done]. by apply panel_edit_sameWorkers.
  - eapply sameWorkers_invariant; [|done].
    by apply panel_edit_sameWorkers, (rowEdit_keeps workerRef).
  - eapply sameWorkers_invariant; [|done].
    by apply panel_edit_sameWorkers, (rowEdit_keeps workerRef).
  - eapply sameWorkers_invariant; [|done]. by apply panel_edit_sameWorkers.
  - eapply sameWorkers_invariant; [|done]. by apply panel_edit_sameWorkers.
  - eapply sameWorkers_invariant; [|done].
    destruct (onClickRow_cases predicate row W) as [->| ->];
      by unfold sameWorkers.
  - eapply sameWorkers_invariant; [|done].
    destruct (openTracingPanel_cases W) as [->| ->]; by unfold sameWorkers.
  - eapply sameWorkers_invariant; [|done]. by apply panel_edit_sameWorkers.
  - eapply sameWorkers_invariant; [|done].
    destruct newActiveKey; by unfold sameWorkers.
Qed.

Lemma orderly_invariant W : orderly W → workerInvariant W.
Proof.
  induction 1 as [text|W e W' _ IH Hrun Hstep].
  - unfold workerInvariant, quiet; simpl.
    split; [apply NoDup_nil_2|]. split; [set_solver|].
    split; intros *; by rewrite lookup_empty.
  - by eapply orderly_step_invariant.
Qed.

Lemma invariant_live W :
  workerInvariant W →
  length (live W) ≤ 1 ∧
  (∀ w, w ∈ live W → workerRef (panel W) = Some w) ∧
  (∀ t text c, tasks W !! t = Some (AwaitCreate text c) → live W = []).
Proof.
  intros (Hnd & Hown & Hacq & _).
  assert (Hlive : ∀ w, w ∈ live W → workerRef (panel W) = Some w).
  { intros w [Hns Hw]%list_elem_of_filter.
    by destruct (Hown w Hw). }
  split; [|split; [done|]].
  - assert (NoDup (live W)) as Hnd' by (by apply NoDup_filter).
    destruct (live W) as [|a [|b l]]; simpl; [lia..|].
    exfalso. apply NoDup_cons in Hnd' as [Hab _]. apply Hab.
    assert (Some a = Some b) as [= ->]; [|set_solver].
    rewrite <- (Hlive a), <- (Hlive b); set_solver.
  - intros t text c [_ Hq]%Hacq.
    apply elem_of_nil_inv. intros w [Hns Hw]%list_elem_of_filter.
    apply Hns. by apply Hq.
Qed.

Lemma orderly_exec W es W' :
  orderly W → guarded W es → exec W es = Some W' → orderly W'.
Proof.
  revert W. induction es as [|e es IH]; intros W HW Hg Hex.
  - by injection Hex as <-.
  - cbn [exec guarded] in *. destruct Hg as [Hrun Hg].
    destruct (step W e) as [W1|] eqn:Hstep; [|done].
    apply (IH W1); [|done..]. by eapply orderly_step.
Qed.

(** C2, as stated, fails.  "Re-run program" is clicked while the first
    run still awaits its worker: the initial [stopProgram] of the second
    run finds the reference empty, both workers arrive, the second
    overwrites the first in the reference, and [stop] is invoked on
    neither.  Two workers are live. *)
Lemma overlapping_runs_leave_two_workers :
  ∃ W,
    exec (initialWorld "") Sample.overlappingRuns = Some W ∧
    live W = [1; 2] ∧
    ¬ (length (live W) ≤ 1) ∧
    workerRef (panel W) = Some 2 ∧
    calls W = [CreateNemoWorker; CreateNemoWorker;
               ParseProgram 1 ""; ParseProgram 2 ""].
Proof.
  eexists. split; [vm_compute; reflexivity|].
  split; [reflexivity|]. split; [|split; reflexivity].
  change (¬ (2 ≤ 1)). lia.
Qed.

(** C2 (amended).  After [stopProgram] the reference is empty, the phase
    is [Idle], [programInfo], [parseError] and [factCounts] are cleared,
    both timings are zero, and [stop] was invoked on the worker that was
    referenced.  [runProgram] starts with exactly that [stopProgram]
    before it asks for a worker.  And as long as "Run program" is not
    clicked while an earlier run still awaits its worker, at most one
    worker is live at any time, it is the referenced one, and none is
    live while a run awaits its worker. *)
Theorem one_worker_when_orderly :
  (∀ W, let W' := stopProgram W in
     workerRef (panel W') = None ∧
     phase (panel W') = Idle ∧
     programInfo (panel W') = None ∧
     parseError (panel W') = None ∧
     factCounts (panel W') = None ∧
     initializationDuration (panel W') = 0%Z ∧
     reasoningDuration (panel W') = 0%Z ∧
     (∀ w, workerRef (panel W) = Some w →
        calls W' = calls W ++ [StopWorker w])) ∧
  (∀ W, runProgram W =
     spawn (suspend (nextTask W)
       (AwaitCreate (programText (panel W)) (inputs (panel W)))
       (invoke CreateNemoWorker
          (onPanel (setIsProgramRunning true) (stopProgram W))))) ∧
  (∀ W, orderly W →
     length (live W) ≤ 1 ∧
     (∀ w, w ∈ live W → workerRef (panel W) = Some w) ∧
     (∀ t text c, tasks W !! t = Some (AwaitCreate text c) → live W = [])).
Proof.
  split; [|split].
  - intros W W'. unfold W'. rewrite stopProgram_panel, stopProgram_calls.
    repeat split. by intros w ->.
  - intros W. unfold runProgram. wsimpl. by rewrite stopProgram_nextTask.
  - intros W HW. by apply invariant_live, orderly_invariant.
Qed.

Lemma one_worker_when_orderly_witness :
  ∃ W,
    exec (initialWorld "p(1).")
      (Sample.fullRun ++ [ClickRun; Settle 1 (Fulfilled (VWorker 2))])
      = Some W ∧
    orderly W ∧
    live W = [2] ∧
    length (live W) ≤ 1 ∧
    (∀ w, w ∈ live W → workerRef (panel W) = Some w).
Proof.
  eexists. split; [vm_compute; reflexivity|].
  match goal with
  | |- orderly ?V ∧ _ =>
      assert (orderly V) as HV
  end.
  { eapply (orderly_exec (initialWorld "p(1).")
              (Sample.fullRun ++ [ClickRun; Settle 1 (Fulfilled (VWorker 2))]));
      [constructor| |vm_compute; reflexivity].
    vm_compute. repeat split; intros; discriminate. }
  split; [exact HV|]. split; [reflexivity|].
  destruct (proj2 (proj2 one_worker_when_orderly) _ HV) as (Hlen & Href & _).
  split; [exact Hlen|exact Href].
Defined.

(** ** The bindings of a run *)

Lemma entries_dense (bs : list InputBinding) :
  entries (Val <$> bs) = Normal (Val <$> (pairOf <$> bs)).
Proof.
  induction bs as [|b bs IH]; [done|].
  cbn [fmap list_fmap entries]. cbn [fmap list_fmap] in IH. by rewrite IH.
Qed.

Lemma withFile_dense (bs : list InputBinding) :
  withFile (Val <$> (pairOf <$> bs)) =
  omap (λ b, (resource b,.) <$> file b) bs.
Proof.
  induction bs as [|[r [f|]] bs IH]; [done|..];
    cbn [fmap list_fmap withFile omap list_omap pairOf resource file option_fmap option_map] in *;
    by rewrite IH.
Qed.

Lemma fromEntries_snoc es e :
  fromEntries (es ++ [e]) = <[propertyKey e.1 := e.2]> (fromEntries es).
Proof. unfold fromEntries. by rewrite foldl_app. Qed.

Lemma fromEntries_lookup es r :
  fromEntries es !! r =
  last (omap (λ e, if decide (propertyKey e.1 = r) then Some e.2 else None) es).
Proof.
  induction es as [|e es IH] using rev_ind; [done|].
  rewrite fromEntries_snoc, omap_app, lookup_insert. cbn [omap list_omap].
  case_decide.
  - by rewrite last_snoc.
  - by rewrite app_nil_r.
Qed.

Lemma startBindings_dense bs :
  ∃ m, startBindings (Val <$> bs) = Normal m ∧ ∀ r, m !! r = lastFileFor r bs.
Proof.
  eexists. split.
  { unfold startBindings. rewrite entries_dense. reflexivity. }
  intros r. rewrite fromEntries_lookup, withFile_dense. unfold lastFileFor.
  f_equal. induction bs as [|[k [f|]] bs IH]; [done|..];
    cbn [omap list_omap resource file fmap option_fmap option_map fst snd];
    rewrite <- IH; [|by case_decide].
  reflexivity.
Qed.

Lemma lastFileFor_None r bs :
  lastFileFor r bs = None ↔
  ∀ b, b ∈ bs → propertyKey (resource b) = r → file b = None.
Proof.
  unfold lastFileFor. rewrite last_None. split.
  - intros H b Hb Hr.
    destruct (file b) as [f|] eqn:Hf; [|done].
    assert (f ∈ omap (λ b, if decide (propertyKey (resource b) = r)
                           then file b else None) bs) as Hin.
    { apply list_elem_of_omap. exists b. split; [done|].
      by rewrite decide_True. }
    rewrite H in Hin. by apply elem_of_nil in Hin.
  - intros H. apply elem_of_nil_inv. intros f (b & Hb & Hf)%list_elem_of_omap.
    case_decide; [|done]. by rewrite (H b Hb) in Hf.
Qed.

Lemma lastFileFor_shadow r l1 b l2 f :
  propertyKey (resource b) = r → file b = Some f →
  (∀ b', b' ∈ l2 → propertyKey (resource b') = r → file b' = None) →
  lastFileFor r (l1 ++ b :: l2) = Some f.
Proof.
  intros Hr Hf Hl2. unfold lastFileFor.
  rewrite omap_app. cbn [omap list_omap]. rewrite decide_True by done.
  rewrite Hf.
  apply lastFileFor_None in Hl2. unfold lastFileFor in Hl2.
  apply last_None in Hl2. rewrite Hl2.
  by rewrite last_snoc.
Qed.




(** ** Result tabs *)

Lemma codeUnitsLe_total a b : codeUnitsLe a b = true ∨ codeUnitsLe b a = true.
Proof.
  revert b. induction a as [|x a IH]; intros [|y b]; cbn [codeUnitsLe]; auto.
  destruct (N.ltb_spec (Ascii.N_of_ascii x) (Ascii.N_of_ascii y)),
           (N.ltb_spec (Ascii.N_of_ascii y) (Ascii.N_of_ascii x)),
           (N.eqb_spec (Ascii.N_of_ascii x) (Ascii.N_of_ascii y)),
           (N.eqb_spec (Ascii.N_of_ascii y) (Ascii.N_of_ascii x));
    auto; lia.
Qed.

Lemma codeUnitsLe_trans a b c :
  codeUnitsLe a b = true → codeUnitsLe b c = true → codeUnitsLe a c = true.
Proof.
  revert b c. induction a as [|x a IH]; intros [|y b] [|z c];
    cbn [codeUnitsLe]; auto; try discriminate.
  destruct (N.ltb_spec (Ascii.N_of_ascii x) (Ascii.N_of_ascii y)),
           (N.ltb_spec (Ascii.N_of_ascii y) (Ascii.N_of_ascii z)),
           (N.ltb_spec (Ascii.N_of_ascii x) (Ascii.N_of_ascii z)),
           (N.eqb_spec (Ascii.N_of_ascii x) (Ascii.N_of_ascii y)),
           (N.eqb_spec (Ascii.N_of_ascii y) (Ascii.N_of_ascii z)),
           (N.eqb_spec (Ascii.N_of_ascii x) (Ascii.N_of_ascii z));
    auto; try discriminate; try lia.
  apply IH.
Qed.

Lemma codeUnitsLe_antisym a b :
  codeUnitsLe a b = true → codeUnitsLe b a = true → a = b.
Proof.
  revert b. induction a as [|x a IH]; intros [|y b];
    cbn [codeUnitsLe]; auto; try discriminate.
  destruct (N.ltb_spec (Ascii.N_of_ascii x) (Ascii.N_of_ascii y)),
           (N.ltb_spec (Ascii.N_of_ascii y) (Ascii.N_of_ascii x)),
           (N.eqb_spec (Ascii.N_of_ascii x) (Ascii.N_of_ascii y)),
           (N.eqb_spec (Ascii.N_of_ascii y) (Ascii.N_of_ascii x));
    try discriminate; try lia.
  intros Hab Hba. f_equal; [|by apply IH].
  rewrite <- (Ascii.ascii_N_embedding x), <- (Ascii.ascii_N_embedding y).
  by f_equal.
Qed.

Global Instance precedes_total : Total precedes.
Proof.
  intros a b. unfold precedes.
  destruct (codeUnitsLe_total a b) as [->| ->]; [by left|by right].
Qed.

Global Instance precedes_trans : Transitive precedes.
Proof.
  intros a b c Hab%Is_true_true Hbc%Is_true_true.
  apply Is_true_true. by eapply codeUnitsLe_trans.
Qed.

Global Instance precedes_antisym : AntiSymm (=) precedes.
Proof.
  intros a b Hab%Is_true_true Hba%Is_true_true.
  by apply codeUnitsLe_antisym.
Qed.

Lemma sort_sorted names : Sorted precedes (sort names).
Proof. apply (Sorted_merge_sort precedes). Qed.

Lemma sort_permutation names : sort names ≡ₚ names.
Proof. apply merge_sort_Permutation. Qed.

Lemma sort_arrival_order names names' :
  names' ≡ₚ names → sort names' = sort names.
Proof.
  intros Hp. apply (Sorted_unique precedes); try apply sort_sorted.
  by rewrite !sort_permutation.
Qed.






(** * Further properties of the component *)

(** ** Runs that nothing overtakes *)

Lemma exec_snoc W es W1 e :
  exec W es = Some W1 → exec W (es ++ [e]) = step W1 e.
Proof.
  intros H. rewrite exec_app, H. cbn [mbind option_bind exec].
  by destruct (step W1 e).
Qed.

Lemma run_reaches_created W w :
  w ∉ spawned W →
  exec W [ClickRun; Settle (nextTask W) (Fulfilled (VWorker w))]
  = Some (created W w).
Proof.
  intros Hw. erewrite exec_cons by reflexivity.
  erewrite exec_cons; [reflexivity|].
  rewrite (step_settle _ _ _ _ (runProgram_task W)).
  cbn [resume resumeRun]. rewrite runProgram_spawned.
  by rewrite decide_False.
Qed.

Lemma created_task W w :
  tasks (created W w) !! nextTask W = Some (AwaitParse w (inputs (panel W))).
Proof. apply lookup_insert_eq. Qed.

Lemma parsed_task W w info :
  tasks (parsed W w info) !! nextTask W = Some (AwaitMark w (inputs (panel W))).
Proof. apply lookup_insert_eq. Qed.

Lemma started_task W w info m :
  tasks (started W w info m) !! nextTask W = Some (AwaitStart w).
Proof. apply lookup_insert_eq. Qed.

Lemma timed_task W w info m a b :
  tasks (timed W w info m a b) !! nextTask W = Some (AwaitCounts w).
Proof. apply lookup_insert_eq. Qed.

Lemma run_reaches_parsed W w info :
  w ∉ spawned W →
  exec W [ClickRun; Settle (nextTask W) (Fulfilled (VWorker w));
          Settle (nextTask W) (Fulfilled (VProgramInfo info))]
  = Some (parsed W w info).
Proof.
  intros Hw.
  change (exec W ([ClickRun; Settle (nextTask W) (Fulfilled (VWorker w))] ++
                  [Settle (nextTask W) (Fulfilled (VProgramInfo info))])
          = Some (parsed W w info)).
  rewrite exec_app, run_reaches_created by done. cbn [mbind option_bind].
  erewrite exec_cons; [reflexivity|].
  by rewrite (step_settle _ _ _ _ (created_task W w)).
Qed.

Lemma run_reaches_started W w info m :
  w ∉ spawned W →
  startBindings (inputs (panel W)) = Normal m →
  exec W [ClickRun; Settle (nextTask W) (Fulfilled (VWorker w));
          Settle (nextTask W) (Fulfilled (VProgramInfo info));
          Settle (nextTask W) (Fulfilled VVoid)]
  = Some (started W w info m).
Proof.
  intros Hw Hm.
  change (exec W ([ClickRun; Settle (nextTask W) (Fulfilled (VWorker w));
                   Settle (nextTask W) (Fulfilled (VProgramInfo info))] ++
                  [Settle (nextTask W) (Fulfilled VVoid)])
          = Some (started W w info m)).
  rewrite exec_app, run_reaches_parsed by done. cbn [mbind option_bind].
  erewrite exec_cons; [reflexivity|].
  rewrite (step_settle _ _ _ _ (parsed_task W w info)).
  cbn [resume resumeRun]. by rewrite Hm.
Qed.

Lemma run_reaches_timed W w info m a b :
  w ∉ spawned W →
  startBindings (inputs (panel W)) = Normal m →
  exec W [ClickRun; Settle (nextTask W) (Fulfilled (VWorker w));
          Settle (nextTask W) (Fulfilled (VProgramInfo info));
          Settle (nextTask W) (Fulfilled VVoid);
          Settle (nextTask W) (Fulfilled (VStartInfo a b))]
  = Some (timed W w info m a b).
Proof.
  intros Hw Hm.
  change (exec W ([ClickRun; Settle (nextTask W) (Fulfilled (VWorker w));
                   Settle (nextTask W) (Fulfilled (VProgramInfo info));
                   Settle (nextTask W) (Fulfilled VVoid)] ++
                  [Settle (nextTask W) (Fulfilled (VStartInfo a b))])
          = Some (timed W w info m a b)).
  rewrite exec_app, (run_reaches_started _ _ _ m) by done.
  cbn [mbind option_bind].
  erewrite exec_cons; [reflexivity|].
  by rewrite (step_settle _ _ _ _ (started_task W w info m)).
Qed.

Ltac run_fields :=
  unfold timed, started, parsed, created; wsimpl;
  rewrite ?runProgram_panel, ?runProgram_calls, ?stopProgram_panel;
  unfold phase; ssimpl.

(** X1.  A run from any world in which worker creation, [parseProgram],
    [markDefaultExports], [start] and [getCounts] all succeed ends in
    phase [Ready] with the parse result, both timings and the fact
    counts stored and no error; the new worker is the referenced one, the
    handler has finished, and it invoked exactly these five operations,
    in this order, after the initial [stopProgram]. *)
Theorem run_succeeding (W : World) (w : WorkerId) (info : NemoProgramInfo)
    (bindings : gmap string File.t) (a b : Z) (counts : FactCounts.t) :
  w ∉ spawned W →
  startBindings (inputs (panel W)) = Normal bindings →
  let t := nextTask W in
  ∃ W',
    exec W [ClickRun;
            Settle t (Fulfilled (VWorker w));
            Settle t (Fulfilled (VProgramInfo info));
            Settle t (Fulfilled VVoid);
            Settle t (Fulfilled (VStartInfo a b));
            Settle t (Fulfilled (VFactCounts counts))] = Some W' ∧
    phase (panel W') = Ready ∧
    session (panel W') = (Some info, a, b, Some counts, None) ∧
    workerRef (panel W') = Some w ∧
    tasks W' !! t = None ∧
    calls W' = calls (stopProgram W) ++
      [CreateNemoWorker; ParseProgram w (programText (panel W));
       MarkDefaultExports w; Start w bindings; GetCounts w].
Proof.
  intros Hw Hm t. subst t.
  eexists. split.
  { etransitivity;
      [exact (exec_snoc _ _ _ _ (run_reaches_timed W w info bindings a b Hw Hm))|].
    by rewrite (step_settle _ _ _ _ (timed_task W w info bindings a b)). }
  unfold session. run_fields.
  repeat split.
  - apply lookup_delete_eq.
  - by rewrite <- !app_assoc.
Qed.

Lemma run_succeeding_witness :
  ∃ W',
    exec withOneInput
      [ClickRun;
       Settle 0 (Fulfilled (VWorker 1));
       Settle 0 (Fulfilled (VProgramInfo Sample.info));
       Settle 0 (Fulfilled VVoid);
       Settle 0 (Fulfilled (VStartInfo 5%Z 12%Z));
       Settle 0 (Fulfilled (VFactCounts Sample.counts))] = Some W' ∧
    phase (panel W') = Ready ∧
    session (panel W') =
      (Some Sample.info, 5%Z, 12%Z, Some Sample.counts, None) ∧
    workerRef (panel W') = Some 1 ∧
    tasks W' !! 0 = None ∧
    calls W' = calls (stopProgram withOneInput) ++
      [CreateNemoWorker; ParseProgram 1 "p(1).";
       MarkDefaultExports 1; Start 1 (<["r1" := Sample.r1]> ∅);
       GetCounts 1].
Proof.
  apply (run_succeeding withOneInput 1 Sample.info
           (<["r1" := Sample.r1]> ∅) 5%Z 12%Z Sample.counts).
  - decide_closed.
  - reflexivity.
Defined.

(** X2.  A run whose [parseProgram] is rejected ends in phase [Failed]
    with the rejection's text in [parseError] and nothing else stored;
    [markDefaultExports] and [start] are never invoked, and the worker
    stays referenced (it is not stopped). *)
Theorem run_failing_at_parse (W : World) (w : WorkerId) (e : Thrown) :
  w ∉ spawned W →
  let t := nextTask W in
  ∃ W',
    exec W [ClickRun;
            Settle t (Fulfilled (VWorker w));
            Settle t (Rejected e)] = Some W' ∧
    phase (panel W') = Failed ∧
    session (panel W') = (None, 0%Z, 0%Z, None, Some (toString e)) ∧
    workerRef (panel W') = Some w ∧
    tasks W' !! t = None ∧
    calls W' = calls (stopProgram W) ++
      [CreateNemoWorker; ParseProgram w (programText (panel W))].
Proof.
  intros Hw t. subst t.
  eexists. split.
  { etransitivity;
      [exact (exec_snoc _ _ _ _ (run_reaches_created W w Hw))|].
    by rewrite (step_settle _ _ _ _ (created_task W w)). }
  unfold session. run_fields.
  repeat split.
  - apply lookup_delete_eq.
  - by rewrite <- !app_assoc.
Qed.

Lemma run_failing_at_parse_witness :
  ∃ W',
    exec (initialWorld "p(")
      [ClickRun;
       Settle 0 (Fulfilled (VWorker 1));
       Settle 0 (Rejected {| toString := "unexpected token" |})] = Some W' ∧
    phase (panel W') = Failed ∧
    session (panel W') = (None, 0%Z, 0%Z, None, Some "unexpected token") ∧
    workerRef (panel W') = Some 1 ∧
    tasks W' !! 0 = None ∧
    calls W' = calls (stopProgram (initialWorld "p(")) ++
      [CreateNemoWorker; ParseProgram 1 "p("].
Proof.
  apply (run_failing_at_parse (initialWorld "p(") 1
           {| toString := "unexpected token" |}).
  decide_closed.
Defined.

(** X3.  A run whose [getCounts] is rejected keeps the parse result and
    both timings, has no fact counts, stores the rejection's text in
    [parseError] and ends in phase [Failed]; every result tab is
    disabled. *)
Theorem run_failing_at_counts (inheritedText : string → string)
    (W : World) (w : WorkerId)
    (info : NemoProgramInfo) (bindings : gmap string File.t) (a b : Z)
    (e : Thrown) :
  w ∉ spawned W →
  startBindings (inputs (panel W)) = Normal bindings →
  let t := nextTask W in
  ∃ W',
    exec W [ClickRun;
            Settle t (Fulfilled (VWorker w));
            Settle t (Fulfilled (VProgramInfo info));
            Settle t (Fulfilled VVoid);
            Settle t (Fulfilled (VStartInfo a b));
            Settle t (Rejected e)] = Some W' ∧
    phase (panel W') = Failed ∧
    session (panel W') = (Some info, a, b, None, Some (toString e)) ∧
    Forall (λ tab, disabled tab = true)
      (resultTabs inheritedText (panel W')) ∧
    tasks W' !! t = None.
Proof.
  intros Hw Hm t. subst t.
  eexists. split.
  { etransitivity;
      [exact (exec_snoc _ _ _ _ (run_reaches_timed W w info bindings a b Hw Hm))|].
    by rewrite (step_settle _ _ _ _ (timed_task W w info bindings a b)). }
  unfold session, resultTabs. run_fields.
  repeat split.
  - apply Forall_fmap, Forall_forall. by intros p _.
  - apply lookup_delete_eq.
Qed.

Lemma run_failing_at_counts_witness :
  ∃ W',
    exec withOneInput
      [ClickRun;
       Settle 0 (Fulfilled (VWorker 1));
       Settle 0 (Fulfilled (VProgramInfo Sample.info));
       Settle 0 (Fulfilled VVoid);
       Settle 0 (Fulfilled (VStartInfo 5%Z 12%Z));
       Settle 0 (Rejected Sample.boom)] = Some W' ∧
    phase (panel W') = Failed ∧
    session (panel W') =
      (Some Sample.info, 5%Z, 12%Z, None, Some "data loading failed") ∧
    Forall (λ tab, disabled tab = true)
      (resultTabs Sample.nativeText (panel W')) ∧
    tasks W' !! 0 = None.
Proof.
  apply (run_failing_at_counts Sample.nativeText withOneInput 1 Sample.info
           (<["r1" := Sample.r1]> ∅) 5%Z 12%Z Sample.boom).
  - decide_closed.
  - reflexivity.
Defined.

(** X4.  A run whose [createNemoWorker] is rejected ends in phase
    [Failed] with the rejection's text in [parseError]; no worker is
    referenced or handed out, and no worker operation follows the
    request for a worker. *)
Theorem run_failing_at_creation (W : World) (e : Thrown) :
  let t := nextTask W in
  ∃ W',
    exec W [ClickRun; Settle t (Rejected e)] = Some W' ∧
    phase (panel W') = Failed ∧
    session (panel W') = (None, 0%Z, 0%Z, None, Some (toString e)) ∧
    workerRef (panel W') = None ∧
    spawned W' = spawned W ∧
    tasks W' !! t = None ∧
    calls W' = calls (stopProgram W) ++ [CreateNemoWorker].
Proof.
  intros t. subst t.
  eexists. split.
  { erewrite exec_cons by reflexivity.
    erewrite exec_cons; [reflexivity|].
    by rewrite (step_settle _ _ _ _ (runProgram_task W)). }
  unfold session. run_fields. rewrite runProgram_spawned.
  repeat split. apply lookup_delete_eq.
Qed.

(** ** Registry edits *)

Lemma spread_dense (bs : list InputBinding) :
  JsArray.spread (Val <$> bs) = Val <$> bs.
Proof.
  unfold JsArray.spread. rewrite <- list_fmap_compose.
  by apply list_fmap_ext.
Qed.

Lemma get_dense (bs : list InputBinding) i :
  JsArray.get (Val <$> bs) i = bs !! i.
Proof.
  unfold JsArray.get. rewrite list_lookup_fmap. by destruct (bs !! i).
Qed.

Lemma replaceAt_dense (bs : list InputBinding) i b u :
  bs !! i = Some b →
  InputRegistry.replaceAt (Val <$> bs) i u =
  Val <$> <[i := InputRegistry.merge (Some b) u]> bs.
Proof.
  intros Hb. unfold InputRegistry.replaceAt, JsArray.set.
  rewrite spread_dense, get_dense, Hb, length_fmap.
  apply lookup_lt_Some in Hb. rewrite decide_True by done.
  by rewrite list_fmap_insert.
Qed.

(** X7.  On a registry without holes, [replaceAt] with an index inside
    the registry is the list update at that index: the length and all
    other bindings are kept, and the binding at the index keeps the
    property that was not updated. *)
Theorem replaceAt_in_range (bs : list InputBinding) (i : nat)
    (b : InputBinding) (u : InputRegistry.PartialUpdate) :
  bs !! i = Some b →
  InputRegistry.replaceAt (Val <$> bs) i u =
    Val <$> <[i := InputRegistry.merge (Some b) u]> bs ∧
  (∀ v, u = InputRegistry.SetResource v →
     InputRegistry.merge (Some b) u = {| resource := Some v; file := file b |}) ∧
  (∀ f, u = InputRegistry.SetFile f →
     InputRegistry.merge (Some b) u = {| resource := resource b; file := Some f |}).
Proof.
  intros Hb. split; [by apply replaceAt_dense|split; by intros ? ->].
Qed.

Lemma replaceAt_in_range_witness :
  InputRegistry.replaceAt (Val <$> Sample.shadowing) 1
    (InputRegistry.SetFile Sample.r1)
  = Val <$> <[1 := {| resource := Some "r2"; file := Some Sample.r1 |}]>
              Sample.shadowing.
Proof.
  apply (proj1 (replaceAt_in_range Sample.shadowing 1
                  {| resource := Some "r2"; file := None |}
                  (InputRegistry.SetFile Sample.r1) eq_refl)).
Defined.

Lemma delete_past_end {A} (l : list A) i : length l ≤ i → delete i l = l.
Proof.
  revert i. induction l as [|a l IH]; intros [|i] Hi; simpl in *;
    try done; [lia|].
  f_equal. apply IH. lia.
Qed.

Lemma removeAt_dense_delete (bs : list InputBinding) i :
  InputRegistry.removeAt (Val <$> bs) i = Val <$> delete i bs.
Proof.
  unfold InputRegistry.removeAt, JsArray.splice1.
  by rewrite spread_dense, list_fmap_delete.
Qed.

(** X8.  On a registry without holes, [removeAt] deletes the binding at
    the index and nothing else; with an index at or past the end it
    leaves the registry as it is. *)
Theorem removeAt_dense (bs : list InputBinding) (i : nat) :
  InputRegistry.removeAt (Val <$> bs) i = Val <$> delete i bs ∧
  (length bs ≤ i → InputRegistry.removeAt (Val <$> bs) i = Val <$> bs) ∧
  (i < length bs →
     length (InputRegistry.removeAt (Val <$> bs) i) = pred (length bs)).
Proof.
  pose proof (removeAt_dense_delete bs i) as Heq.
  split; [done|]. rewrite Heq. split.
  - intros Hi. by rewrite delete_past_end.
  - intros Hi. rewrite length_fmap, length_delete; [lia|].
    by apply lookup_lt_is_Some_2.
Qed.

Lemma removeAt_dense_witness :
  InputRegistry.removeAt (Val <$> Sample.shadowing) 5
    = Val <$> Sample.shadowing ∧
  length (InputRegistry.removeAt (Val <$> Sample.shadowing) 0) = 2.
Proof.
  split.
  - apply (proj1 (proj2 (removeAt_dense Sample.shadowing 5))). simpl. lia.
  - apply (proj2 (proj2 (removeAt_dense Sample.shadowing 0))). simpl. lia.
Defined.

Lemma complete_dense inputs :
  complete inputs → ∃ bs, inputs = Val <$> bs ∧
    Forall (λ b, is_Some (resource b) ∧ is_Some (file b)) bs.
Proof.
  induction 1 as [|s l (r & f & ->) _ (bs & -> & Hbs)].
  - by exists [].
  - exists ({| resource := Some r; file := Some f |} :: bs).
    split; [done|]. constructor; [|done]. split; by eexists.
Qed.

Lemma dense_complete bs :
  Forall (λ b, is_Some (resource b) ∧ is_Some (file b)) bs →
  complete (Val <$> bs).
Proof.
  intros H. apply Forall_fmap. eapply Forall_impl; [done|].
  intros [r f] [[r' Hr] [f' Hf]]; simpl in *; subst. by exists r', f'.
Qed.

Lemma resumeRun_inputs t k r W W' :
  resumeRun t k r W = Some W' → inputs (panel W') = inputs (panel W).
Proof.
  unfold resumeRun. intros H.
  destruct k, r as [[]|]; simplify_eq/=; try done.
  - by case_decide; simplify_eq/=.
  - by destruct (startBindings captured); simplify_eq/=.
Qed.

Lemma resumeTrace_inputs t f r W W' :
  resumeTrace t f r W = Some W' → inputs (panel W') = inputs (panel W).
Proof.
  unfold resumeTrace. intros H. by destruct r as [[]|]; simplify_eq/=.
Qed.

Lemma complete_replaceAt inputs i u :
  complete inputs → i < length inputs →
  complete (InputRegistry.replaceAt inputs i u).
Proof.
  intros Hc Hi.
  destruct (complete_dense _ Hc) as (bs & -> & HF).
  rewrite length_fmap in Hi.
  destruct (lookup_lt_is_Some_2 bs i Hi) as [b Hb].
  rewrite (replaceAt_dense bs i b u Hb).
  apply dense_complete, Forall_insert; [done|].
  pose proof (Forall_lookup_1 _ _ _ _ HF Hb) as [? ?].
  destruct u; simpl; split; done.
Qed.

Lemma complete_removeAt inputs i :
  complete inputs → complete (InputRegistry.removeAt inputs i).
Proof.
  intros Hc. destruct (complete_dense _ Hc) as (bs & -> & HF).
  rewrite (removeAt_dense_delete bs i).
  by apply dense_complete, Forall_delete.
Qed.

Lemma step_complete W e W' :
  complete (inputs (panel W)) → step W e = Some W' →
  complete (inputs (panel W')).
Proof.
  intros Hc Hstep.
  destruct e; cbn [step] in Hstep; try (injection Hstep as <-).
  - rewrite runProgram_panel, stopProgram_panel. done.
  - by rewrite stopProgram_panel.
  - unfold traceFactAscii. by rewrite traceFact_panel.
  - unfold traceFactEvonne. by rewrite traceFact_panel.
  - destruct (tasks W !! t) as [k|] eqn:Hk; [|done].
    cbn [mbind option_bind] in Hstep.
    destruct k; cbn [resume] in Hstep;
      first [apply resumeRun_inputs in Hstep
            |apply resumeTrace_inputs in Hstep]; by rewrite Hstep.
  - done.
  - wsimpl. ssimpl. destruct fileList as [|f ?]; [done|].
    cbn [InputRegistry.chosen]. unfold InputRegistry.add.
    apply Forall_app. split; [done|].
    constructor; [|done]. by exists (File.name f), f.
  - wsimpl. destruct (rowEdit_cases i
      (λ inputs, InputRegistry.replaceAt inputs i u) (panel W))
      as [->|[Hi ->]]; [done|].
    ssimpl. by apply complete_replaceAt.
  - wsimpl. destruct (rowEdit_cases i
      (λ inputs, InputRegistry.removeAt inputs i) (panel W))
      as [->|[Hi ->]]; [done|].
    ssimpl. by apply complete_removeAt.
  - done.
  - done.
  - by destruct (onClickRow_cases predicate row W) as [->| ->].
  - by destruct (openTracingPanel_cases W) as [->| ->].
  - done.
  - by destruct newActiveKey.
Qed.

Lemma complete_bindings inputs :
  complete inputs →
  ∃ m, startBindings inputs = Normal m ∧
       ∀ r, is_Some (m !! r) ↔
            ∃ f, Val {| resource := Some r; file := Some f |} ∈ inputs.
Proof.
  intros Hc. destruct (complete_dense _ Hc) as (bs & -> & HF).
  destruct (startBindings_dense bs) as (m & Hm & Hlook).
  exists m. split; [done|]. intros r.
  rewrite Hlook. split.
  - intros [f Hf]. unfold lastFileFor in Hf.
    apply last_Some_elem_of, list_elem_of_omap in Hf as (b & Hb & Hf).
    case_decide as Hk; [|done].
    pose proof (proj1 (Forall_forall _ _) HF _ Hb) as [[r' Hr'] _].
    exists f. apply list_elem_of_fmap. exists b. split; [|done].
    destruct b as [rb fb]; simpl in *. by subst.
  - intros [f Hin]. apply not_eq_None_Some. rewrite lastFileFor_None.
    intros Hn. apply list_elem_of_fmap in Hin as (b & [= <-] & Hb).
    by specialize (Hn _ Hb eq_refl).
Qed.

(** X9.  A registry in which every slot is a binding with a name and a
    file stays so under every event, provided a replacement addresses an
    existing index.  For such a registry the bindings for [start] never
    throw, and their keys are exactly the names in the registry. *)
Theorem registry_stays_complete (W : World) (e : Event) (W' : World) :
  complete (inputs (panel W)) →
  (∀ i u, e = ReplaceAt i u → i < length (inputs (panel W))) →
  step W e = Some W' →
  complete (inputs (panel W')) ∧
  ∃ m, startBindings (inputs (panel W')) = Normal m ∧
       ∀ r, is_Some (m !! r) ↔
            ∃ f, Val {| resource := Some r; file := Some f |}
                 ∈ inputs (panel W').
Proof.
  intros Hc _ Hstep.
  assert (Hc' : complete (inputs (panel W')))
    by by eapply step_complete.
  split; [done|]. by apply complete_bindings.
Qed.

Lemma registry_stays_complete_witness :
  ∃ W',
    step withOneInput (ReplaceAt 0 (InputRegistry.SetResource "renamed"))
      = Some W' ∧
    complete (inputs (panel W')) ∧
    ∃ m, startBindings (inputs (panel W')) = Normal m ∧
         ∀ r, is_Some (m !! r) ↔
              ∃ f, Val {| resource := Some r; file := Some f |}
                   ∈ inputs (panel W').
Proof.
  eexists. split; [reflexivity|].
  eapply (registry_stays_complete withOneInput
            (ReplaceAt 0 (InputRegistry.SetResource "renamed"))).
  - repeat constructor. by exists "r1", Sample.r1.
  - intros i u [= <- <-]. simpl. lia.
  - reflexivity.
Defined.

Lemma exec_complete W es W' :
  complete (inputs (panel W)) → exec W es = Some W' →
  complete (inputs (panel W')).
Proof.
  revert W. induction es as [|e es IH]; intros W Hc Hex.
  - by injection Hex as <-.
  - cbn [exec] in Hex. destruct (step W e) as [W1|] eqn:Hstep; [|done].
    apply (IH W1); [|done]. by eapply step_complete.
Qed.

(** X21.  In every world that a sequence of events produces from the
    first render, every slot of the input registry is a binding with a
    name and a file: no edit leaves a hole or a binding without a file
    behind.  So the bindings for [start] are built without throwing, and
    their keys are exactly the names in the registry. *)
Theorem reachable_registry_complete (W : World) :
  reachable W →
  complete (inputs (panel W)) ∧
  ∃ m, startBindings (inputs (panel W)) = Normal m ∧
       ∀ r, is_Some (m !! r) ↔
            ∃ f, Val {| resource := Some r; file := Some f |}
                 ∈ inputs (panel W).
Proof.
  intros (text & es & Hex).
  assert (Hc : complete (inputs (panel W))).
  { eapply exec_complete; [|exact Hex]. constructor. }
  split; [done|]. by apply complete_bindings.
Qed.

Lemma reachable_registry_complete_witness :
  ∃ W,
    exec (initialWorld "")
      [AddFile [Sample.r1]; AddFile [File.mk "r2" 20%N];
       ReplaceAt 1 (InputRegistry.SetResource "renamed");
       ReplaceAt 5 (InputRegistry.SetResource "nowhere");
       RemoveAt 0] = Some W ∧
    inputs (panel W) =
      [Val {| resource := Some "renamed";
              file := Some (File.mk "r2" 20%N) |}] ∧
    ∃ m, startBindings (inputs (panel W)) = Normal m ∧
         ∀ r, is_Some (m !! r) ↔
              ∃ f, Val {| resource := Some r; file := Some f |}
                   ∈ inputs (panel W).
Proof.
  eexists. split; [reflexivity|]. split; [reflexivity|].
  apply reachable_registry_complete.
  exists "", [AddFile [Sample.r1]; AddFile [File.mk "r2" 20%N];
              ReplaceAt 1 (InputRegistry.SetResource "renamed");
              ReplaceAt 5 (InputRegistry.SetResource "nowhere");
              RemoveAt 0].
  reflexivity.
Defined.

(** X10.  After a file is added to a registry of bindings, the map for
    [start] holds that file under the file's own name, whatever
    bindings of that name came before. *)
Theorem added_file_is_submitted (bs : list InputBinding) (f : File.t) :
  ∃ m,
    startBindings (InputRegistry.add (Val <$> bs) f) = Normal m ∧
    m !! File.name f = Some f.
Proof.
  destruct (startBindings_dense
              (bs ++ [{| resource := Some (File.name f); file := Some f |}]))
    as (m & Hm & Hlook).
  exists m. split.
  - unfold InputRegistry.add. by rewrite fmap_app in Hm.
  - rewrite Hlook. apply lastFileFor_shadow; [done..|].
    intros b' Hb'. by apply elem_of_nil in Hb'.
Qed.

(** ** Tracing *)

Lemma traceFact_allowed format request W w :
  programInfo (panel W) ≠ None →
  isWorkerActive (panel W) = false →
  workerRef (panel W) = Some w →
  traceFact format request W =
  spawn (suspend (nextTask W) (AwaitTrace format)
    (invoke (request w (tracingFactText (panel W))) W)).
Proof.
  intros Hi Hb Hw.
  destruct (traceFact_cases format request W)
    as [(_ & _ & w' & Hw' & ->)|[[?|[?|?]] _]]; try congruence.
Qed.

Lemma trace_settles format request W w r :
  programInfo (panel W) ≠ None →
  isWorkerActive (panel W) = false →
  workerRef (panel W) = Some w →
  step (traceFact format request W) (Settle (nextTask W) r)
  = resumeTrace (nextTask W) format r
      (spawn (suspend (nextTask W) (AwaitTrace format)
         (invoke (request w (tracingFactText (panel W))) W))).
Proof.
  intros Hi Hb Hw. rewrite (traceFact_allowed _ _ _ w) by done.
  rewrite (step_settle _ _ (AwaitTrace format)); [reflexivity|].
  wsimpl. apply lookup_insert_eq.
Qed.

(** X12.  With a parsed program, an idle worker and a referenced worker,
    typing a fact and clicking a trace button sends exactly one request
    with that text to the referenced worker ([parseAndTraceFactAscii] or
    [parseAndTraceFactGraphML]); when it is fulfilled the result is
    shown in the requested rendering, and the session cells and the
    reference are as before. *)
Theorem trace_round_trip (W : World) (w : WorkerId) (text result : string) :
  programInfo (panel W) ≠ None →
  isWorkerActive (panel W) = false →
  workerRef (panel W) = Some w →
  let t := nextTask W in
  (∃ W',
     exec W [TypeFact text; ClickTraceAscii;
             Settle t (Fulfilled (VString result))] = Some W' ∧
     calls W' = calls W ++ [ParseAndTraceFactAscii w text] ∧
     tracingResultsView (panel W') = AsciiCode result ∧
     session (panel W') = session (panel W) ∧
     workerRef (panel W') = Some w ∧
     tasks W' !! t = None) ∧
  (∃ W',
     exec W [TypeFact text; ClickTraceEvonne;
             Settle t (Fulfilled (VString result))] = Some W' ∧
     calls W' = calls W ++ [ParseAndTraceFactGraphML w text] ∧
     tracingResultsView (panel W') = EvonneGraph result ∧
     session (panel W') = session (panel W) ∧
     workerRef (panel W') = Some w ∧
     tasks W' !! t = None).
Proof.
  intros Hi Hb Hw t. subst t.
  split; eexists; (split; [
    erewrite exec_cons by reflexivity;
    erewrite exec_cons by reflexivity;
    erewrite exec_cons; [reflexivity|];
    unfold traceFactAscii, traceFactEvonne;
    by rewrite (trace_settles _ _ (onPanel (setTracingFactText text) W) w)|]).
  all: unfold session, tracingResultsView; wsimpl; ssimpl.
  all: repeat split; try done; apply lookup_delete_eq.
Qed.

Lemma trace_round_trip_witness :
  ∃ W,
    exec (initialWorld "p(1).") Sample.fullRun = Some W ∧
    ∃ W',
      exec W [TypeFact "p(1)"; ClickTraceEvonne;
              Settle 1 (Fulfilled (VString "<graphml/>"))] = Some W' ∧
      calls W' = calls W ++ [ParseAndTraceFactGraphML 1 "p(1)"] ∧
      tracingResultsView (panel W') = EvonneGraph "<graphml/>".
Proof.
  eexists. split; [vm_compute; reflexivity|].
  match goal with
  | |- ∃ W', exec ?V _ = _ ∧ _ =>
      destruct (trace_round_trip V 1 "p(1)" "<graphml/>")
        as [_ (W' & Hex & Hc & Hv & _)];
        [discriminate|reflexivity|reflexivity|]
  end.
  exists W'. split; [exact Hex|]. split; [exact Hc|exact Hv].
Defined.

(** X13.  When an accepted trace request is rejected, the format is
    reset to [NONE] and the rejection's text is stored as the result;
    the results block then shows "No results", not the text.  Session
    cells and phase are untouched. *)
Theorem trace_failure_shows_no_results (W : World) (w : WorkerId)
    (e : Thrown) :
  programInfo (panel W) ≠ None →
  isWorkerActive (panel W) = false →
  workerRef (panel W) = Some w →
  let t := nextTask W in
  ∀ click, click = ClickTraceAscii ∨ click = ClickTraceEvonne →
  ∃ W',
    exec W [click; Settle t (Rejected e)] = Some W' ∧
    traceSlot (panel W') = (NONE, Some (toString e)) ∧
    tracingResultsView (panel W') = NoResults ∧
    session (panel W') = session (panel W) ∧
    phase (panel W') = phase (panel W) ∧
    tasks W' !! t = None.
Proof.
  intros Hi Hb Hw t click Hclick. subst t.
  destruct Hclick as [-> | ->]; eexists; (split; [
    erewrite exec_cons by reflexivity;
    erewrite exec_cons; [reflexivity|];
    unfold traceFactAscii, traceFactEvonne;
    by rewrite (trace_settles _ _ W w)|]).
  all: unfold session, tracingResultsView, traceSlot, phase; wsimpl; ssimpl.
  all: repeat split; apply lookup_delete_eq.
Qed.

Lemma trace_failure_shows_no_results_witness :
  ∃ W,
    exec (initialWorld "p(1).") Sample.fullRun = Some W ∧
    ∃ W',
      exec W [ClickTraceAscii;
              Settle 1 (Rejected {| toString := "not derivable" |})]
        = Some W' ∧
      traceSlot (panel W') = (NONE, Some "not derivable") ∧
      tracingResultsView (panel W') = NoResults.
Proof.
  eexists. split; [vm_compute; reflexivity|].
  match goal with
  | |- ∃ W', exec ?V _ = _ ∧ _ =>
      destruct (trace_failure_shows_no_results V 1
                  {| toString := "not derivable" |})
        with (click := ClickTraceAscii)
        as (W' & Hex & Hs & Hv & _);
        [discriminate|reflexivity|reflexivity|by left|]
  end.
  exists W'. split; [exact Hex|]. split; [exact Hs|exact Hv].
Defined.

(** X14.  A click on a result row does nothing while tracing is not
    allowed.  Otherwise it opens the tracing dialog and sets the fact
    text to [predicate(v1,...,vn)]; it sends nothing to the worker and
    leaves the stored trace result alone, and a following click on a
    trace button submits exactly that text. *)
Theorem row_click_fills_fact_text (W : World) (predicate : string)
    (row : list string) :
  (isTracingCurrentlyAllowed (panel W) = false →
     onClickRow predicate row W = W) ∧
  (isTracingCurrentlyAllowed (panel W) = true →
     let W' := onClickRow predicate row W in
     tracingFactText (panel W') = factText predicate row ∧
     isTracingModalShown (panel W') = true ∧
     calls W' = calls W ∧ tasks W' = tasks W ∧
     traceSlot (panel W') = traceSlot (panel W) ∧
     session (panel W') = session (panel W) ∧
     ∀ w, workerRef (panel W) = Some w →
       calls (traceFactAscii W') =
         calls W ++ [ParseAndTraceFactAscii w (factText predicate row)] ∧
       calls (traceFactEvonne W') =
         calls W ++ [ParseAndTraceFactGraphML w (factText predicate row)]).
Proof.
  split; intros Ha.
  - unfold onClickRow. by rewrite Ha.
  - assert (Heq : onClickRow predicate row W =
      onPanel (setTracingFactText (factText predicate row))
        (onPanel (setIsTracingModalShown true) W))
      by (unfold onClickRow; by rewrite Ha).
    cbv zeta. rewrite Heq. do 6 (split; [reflexivity|]).
    intros w Hw.
    apply andb_prop in Ha as [Hi%bool_decide_eq_true Hb%negb_true_iff].
    unfold traceFactAscii, traceFactEvonne.
    by rewrite !(traceFact_allowed _ _ _ w).
Qed.

Lemma row_click_fills_fact_text_witness :
  ∃ W,
    exec (initialWorld "p(1).") Sample.fullRun = Some W ∧
    isTracingCurrentlyAllowed (panel W) = true ∧
    tracingFactText (panel (onClickRow "p" ["1"; "a"] W)) = "p(1,a)" ∧
    calls (onClickRow "p" ["1"; "a"] W) = calls W.
Proof.
  eexists. split; [vm_compute; reflexivity|].
  split; [reflexivity|].
  match goal with
  | |- tracingFactText (panel (onClickRow _ _ ?V)) = _ ∧ _ =>
      destruct (proj2 (row_click_fills_fact_text V "p" ["1"; "a"]) eq_refl)
        as (Ht & _ & Hc & _)
  end.
  split; [exact Ht|exact Hc].
Defined.

(** ** Tabs *)

Lemma append_inj_r (s p q : string) : s +:+ p = s +:+ q → p = q.
Proof.
  induction s as [|c s IH]; [done|].
  change (String c (s +:+ p) = String c (s +:+ q) → p = q).
  intros [= H]. by apply IH.
Qed.

Lemma sort_idempotent names : sort (sort names) = sort names.
Proof. apply sort_arrival_order, sort_permutation. Qed.

(** X15.  There is one result tab per output predicate; the event keys
    are the predicate names prefixed with "predicate-", so they are
    pairwise distinct when the names are; and a tab is disabled exactly
    when there are no fact counts. *)
Theorem result_tabs_keys (inheritedText : string → string) (s : State)
    (info : NemoProgramInfo) :
  programInfo s = Some info →
  length (resultTabs inheritedText s) = length (outputPredicates info) ∧
  (∀ p, p ∈ outputPredicates info ↔
        "predicate-" +:+ p ∈ eventKey <$> resultTabs inheritedText s) ∧
  (NoDup (outputPredicates info) →
     NoDup (eventKey <$> resultTabs inheritedText s)) ∧
  (∀ tab, tab ∈ resultTabs inheritedText s →
     (disabled tab = true ↔ factCounts s = None)).
Proof.
  intros Hinfo. unfold resultTabs. rewrite Hinfo.
  rewrite <- list_fmap_compose.
  split; [|split; [|split]].
  - by rewrite length_fmap, sort_permutation.
  - intros p. rewrite list_elem_of_fmap. split.
    + intros Hp. exists p. split; [done|]. by rewrite sort_permutation.
    + intros (q & Hq%append_inj_r & Hin). subst q.
      by rewrite sort_permutation in Hin.
  - intros Hnd. apply NoDup_fmap_2.
    + intros p q. apply append_inj_r.
    + by rewrite sort_permutation.
  - intros tab (p & -> & _)%list_elem_of_fmap. cbn [disabled].
    by rewrite bool_decide_eq_true.
Qed.

Lemma result_tabs_keys_witness :
  length (resultTabs Sample.nativeText
            (setProgramInfo (Some Sample.info) (initialState ""))) = 2 ∧
  NoDup (eventKey <$>
         resultTabs Sample.nativeText
           (setProgramInfo (Some Sample.info) (initialState ""))).
Proof.
  destruct (result_tabs_keys Sample.nativeText
              (setProgramInfo (Some Sample.info) (initialState ""))
              Sample.info eq_refl) as (Hlen & _ & Hnd & _).
  split; [exact Hlen|]. apply Hnd.
  apply NoDup_cons. split; [|apply NoDup_singleton].
  intros H. apply list_elem_of_singleton in H. discriminate H.
Defined.

(** X16.  Sorting the output predicates of the stored program info in
    place, as the info tab does, changes nothing in the result tabs, and
    doing it again changes nothing at all; the stored list is a sorted
    permutation of what it was, the other properties are kept. *)
Theorem sort_in_place_is_invisible (inheritedText : string → string)
    (s : State) :
  resultTabs inheritedText (sortedInPlace s) = resultTabs inheritedText s ∧
  sortedInPlace (sortedInPlace s) = sortedInPlace s ∧
  (∀ info, programInfo s = Some info →
     ∃ info', programInfo (sortedInPlace s) = Some info' ∧
       Sorted precedes (outputPredicates info') ∧
       outputPredicates info' ≡ₚ outputPredicates info ∧
       edbPredicates info' = edbPredicates info ∧
       parsingDuration info' = parsingDuration info).
Proof.
  split; [|split].
  - unfold resultTabs.
    change (programInfo (sortedInPlace s)) with
      ((λ info, {| edbPredicates := edbPredicates info;
                   outputPredicates := sort (outputPredicates info);
                   parsingDuration := parsingDuration info |})
       <$> programInfo s).
    change (factCounts (sortedInPlace s)) with (factCounts s).
    destruct (programInfo s) as [info|]; [|done].
    cbn [fmap option_fmap option_map outputPredicates].
    by rewrite sort_idempotent.
  - destruct s as [? ? ? [info|] ? ? ? ? ? ? ? ? ? ? ?]; [|done].
    unfold sortedInPlace, setProgramInfo. ssimpl.
    cbn [fmap option_fmap option_map outputPredicates edbPredicates
         parsingDuration].
    by rewrite sort_idempotent.
  - intros info Hinfo. eexists. split.
    { unfold sortedInPlace. ssimpl. rewrite Hinfo. reflexivity. }
    cbn [outputPredicates edbPredicates parsingDuration].
    split; [apply sort_sorted|]. split; [apply sort_permutation|done].
Qed.

Lemma sort_in_place_is_invisible_witness :
  ∃ info',
    programInfo
      (sortedInPlace (setProgramInfo (Some Sample.info) (initialState "")))
      = Some info' ∧
    Sorted precedes (outputPredicates info') ∧
    outputPredicates info' ≡ₚ ["q"; "p"].
Proof.
  destruct (proj2 (proj2 (sort_in_place_is_invisible Sample.nativeText
              (setProgramInfo (Some Sample.info) (initialState ""))))
              Sample.info eq_refl) as (info' & Hi & Hs & Hp & _).
  exists info'. split; [exact Hi|]. split; [exact Hs|exact Hp].
Defined.

(** ** Which handler writes which cell *)

Lemma resume_keeps t k r W W' :
  resume t k r W = Some W' →
  isWorkerActive (panel W') = isWorkerActive (panel W) ∧
  inputs (panel W') = inputs (panel W) ∧
  programText (panel W') = programText (panel W) ∧
  tracingFactText (panel W') = tracingFactText (panel W).
Proof.
  intros H. destruct k; destruct r as [[]|];
    cbn [resume resumeRun resumeTrace] in H; simplify_eq; try done.
  - by case_decide; simplify_eq.
  - by destruct (startBindings captured); simplify_eq.
Qed.

(** X17.  The busy flag is changed only by the worker's callback (so
    neither "Stop" nor a new run resets it), the input registry only by
    the three registry edits (never by a run), the program text only by
    an edit of the program, and the fact text only by typing into the
    field or by a click on a result row while tracing is allowed. *)
Theorem cells_have_one_writer (W : World) (e : Event) (W' : World) :
  step W e = Some W' →
  (isWorkerActive (panel W') ≠ isWorkerActive (panel W) →
     ∃ b, e = WorkerActive b) ∧
  (inputs (panel W') ≠ inputs (panel W) → isRegistryEdit e) ∧
  (programText (panel W') ≠ programText (panel W) →
     ∃ text, e = EditProgram text) ∧
  (tracingFactText (panel W') ≠ tracingFactText (panel W) →
     (∃ text, e = TypeFact text) ∨
     (∃ predicate row, e = ClickRow predicate row ∧
        isTracingCurrentlyAllowed (panel W) = true)).
Proof.
  intros Hstep.
  destruct e; cbn [step] in Hstep.
  - injection Hstep as <-. rewrite runProgram_panel, stopProgram_panel.
    by repeat split.
  - injection Hstep as <-. rewrite stopProgram_panel. by repeat split.
  - injection Hstep as <-. unfold traceFactAscii. rewrite traceFact_panel.
    by repeat split.
  - injection Hstep as <-. unfold traceFactEvonne. rewrite traceFact_panel.
    by repeat split.
  - destruct (tasks W !! t) as [k|] eqn:Hk; [|done].
    apply resume_keeps in Hstep as (-> & -> & -> & ->). by repeat split.
  - injection Hstep as <-. repeat split; intros Hne; try done. eauto.
  - injection Hstep as <-. by repeat split.
  - injection Hstep as <-. wsimpl.
    rewrite (rowEdit_keeps isWorkerActive), (rowEdit_keeps programText),
      (rowEdit_keeps tracingFactText) by done.
    by repeat split.
  - injection Hstep as <-. wsimpl.
    rewrite (rowEdit_keeps isWorkerActive), (rowEdit_keeps programText),
      (rowEdit_keeps tracingFactText) by done.
    by repeat split.
  - injection Hstep as <-. repeat split; intros Hne; try done. eauto.
  - injection Hstep as <-. repeat split; intros Hne; try done. eauto.
  - injection Hstep as <-. unfold onClickRow.
    destruct (isTracingCurrentlyAllowed (panel W)) eqn:Ha; cbn [negb].
    + repeat split; intros Hne; try done. right. eauto.
    + by repeat split.
  - injection Hstep as <-.
    destruct (openTracingPanel_cases W) as [->| ->]; by repeat split.
  - injection Hstep as <-. by repeat split.
  - injection Hstep as <-. destruct newActiveKey; by repeat split.
Qed.

Lemma cells_have_one_writer_witness :
  ∃ W',
    step (initialWorld "") (WorkerActive true) = Some W' ∧
    isWorkerActive (panel W') ≠ isWorkerActive (panel (initialWorld "")) ∧
    ∃ b, WorkerActive true = WorkerActive b.
Proof.
  eexists. split; [reflexivity|]. split; [discriminate|].
  apply (proj1 (cells_have_one_writer (initialWorld "") (WorkerActive true)
                  _ eq_refl)).
  discriminate.
Defined.

(** X20.  The text submitted to [parseProgram] is the program text at
    the time "Run program" was clicked, also when the program is edited
    while the run awaits its worker. *)
Theorem parse_receives_snapshot (W : World) (w : WorkerId)
    (texts : list string) :
  w ∉ spawned W →
  let t := nextTask W in
  ∃ W',
    exec W ([ClickRun] ++ (EditProgram <$> texts) ++
            [Settle t (Fulfilled (VWorker w))]) = Some W' ∧
    last (calls W') = Some (ParseProgram w (programText (panel W))) ∧
    programText (panel W') = default (programText (panel W)) (last texts).
Proof.
  intros Hw t. subst t.
  assert (Hedits : ∀ V, ∃ V',
    exec V (EditProgram <$> texts) = Some V' ∧ tasks V' = tasks V ∧
    calls V' = calls V ∧ spawned V' = spawned V ∧
    workerRef (panel V') = workerRef (panel V) ∧
    programText (panel V') = default (programText (panel V)) (last texts)).
  { induction texts as [|x texts IH]; intros V; [by exists V|].
    destruct (IH (onPanel (setProgramText x) V))
      as (V' & Hex & ? & ? & ? & ? & Hlast).
    exists V'. split; [exact Hex|]. do 4 (split; [done|]).
    rewrite Hlast, last_cons. by destruct (last texts). }
  destruct (Hedits (runProgram W)) as (V & Hex & Ht & Hc & Hs & _ & Hp).
  eexists. split.
  { cbn [app]. erewrite exec_cons by reflexivity.
    rewrite exec_app, Hex. cbn [mbind option_bind].
    erewrite exec_cons; [reflexivity|].
    erewrite step_settle by (rewrite Ht; apply runProgram_task).
    cbn [resume resumeRun]. rewrite Hs, runProgram_spawned.
    by rewrite decide_False. }
  wsimpl. split; [apply last_snoc|]. ssimpl. rewrite Hp.
  by rewrite runProgram_panel, stopProgram_panel.
Qed.

Lemma parse_receives_snapshot_witness :
  ∃ W',
    exec (initialWorld "a(1).")
      ([ClickRun] ++ (EditProgram <$> ["a(2)."; "a(3)."]) ++
       [Settle 0 (Fulfilled (VWorker 1))]) = Some W' ∧
    last (calls W') = Some (ParseProgram 1 "a(1).") ∧
    programText (panel W') = "a(3).".
Proof.
  apply (parse_receives_snapshot (initialWorld "a(1).") 1 ["a(2)."; "a(3)."]).
  decide_closed.
Defined.

(** ** The order of worker operations *)

Lemma inOrder_snoc cs c :
  inOrder cs → precedent cs c → inOrder (cs ++ [c]).
Proof.
  intros Hcs Hc l1 c' l2 Heq.
  destruct l2 as [|x l2 _] using rev_ind.
  - apply app_inj_tail in Heq as [<- <-]. done.
  - rewrite app_comm_cons, app_assoc in Heq.
    apply app_inj_tail in Heq as [-> _]. by eapply Hcs.
Qed.

Lemma in_snoc {A} (l : list A) x : x ∈ l ++ [x].
Proof. apply elem_of_app. right. by apply list_elem_of_singleton. Qed.

Lemma in_snoc_l {A} (l : list A) x y : x ∈ l → x ∈ l ++ [y].
Proof. intros H. apply elem_of_app. by left. Qed.

Lemma stage_snoc k cs c : stage k cs → stage k (cs ++ [c]).
Proof.
  destruct k; cbn [stage]; try done.
  - intros [text H]. exists text. by apply in_snoc_l.
  - apply in_snoc_l.
  - intros [m H]. exists m. by apply in_snoc_l.
Qed.

Lemma inOrder_stopped_once cs : inOrder cs → NoDup (stoppedWorkers cs).
Proof.
  induction cs as [|c cs IH] using rev_ind; intros H; [constructor|].
  assert (inOrder cs) as Hcs.
  { intros l1 c' l2 ->. apply (H l1 c' (l2 ++ [c])).
    by rewrite <- app_assoc. }
  rewrite stoppedWorkers_app. apply NoDup_app.
  split; [by apply IH|]. split.
  - intros w Hw Hin. destruct c; try by apply elem_of_nil in Hin.
    apply list_elem_of_singleton in Hin as ->.
    by destruct (H cs (StopWorker w0) [] eq_refl).
  - destruct c; first [apply NoDup_nil_2|apply NoDup_singleton].
Qed.

Lemma invariant_call W W' c :
  protocolInvariant W →
  spawned W' = spawned W →
  workerRef (panel W') = workerRef (panel W) →
  calls W' = calls W ++ [c] →
  stoppedWorkers [c] = [] →
  precedent (calls W) c →
  (∀ t k, tasks W' !! t = Some k → stage k (calls W ++ [c])) →
  protocolInvariant W'.
Proof.
  intros (Ha & Hd & Hs & Ho) Hsp Href Hc Hns Hp Ht.
  unfold protocolInvariant.
  rewrite Hsp, Href, Hc, stoppedWorkers_app, Hns, app_nil_r.
  split; [done|]. split; [|split; [done|by apply inOrder_snoc]].
  intros w Hw. destruct (Hd w Hw) as (Hin & Hns' & text & Hparse).
  split; [done|]. split; [done|]. exists text.
  apply elem_of_app. by left.
Qed.

Lemma invariant_quiet W W' :
  protocolInvariant W →
  spawned W' = spawned W →
  workerRef (panel W') = workerRef (panel W) →
  calls W' = calls W →
  (∀ t k, tasks W' !! t = Some k → stage k (calls W)) →
  protocolInvariant W'.
Proof.
  intros (Ha & Hd & Hs & Ho) Hsp Href Hc Ht.
  unfold protocolInvariant. by rewrite Hsp, Href, Hc.
Qed.

Lemma tasks_insert_stage (m : gmap nat Cont) cs t k :
  (∀ t0 k0, m !! t0 = Some k0 → stage k0 cs) →
  stage k cs →
  ∀ t0 k0, <[t := k]> m !! t0 = Some k0 → stage k0 cs.
Proof.
  intros Hm Hk t0 k0. rewrite lookup_insert. case_decide.
  - by intros [= <-].
  - apply Hm.
Qed.

Lemma tasks_delete_stage (m : gmap nat Cont) cs t :
  (∀ t0 k0, m !! t0 = Some k0 → stage k0 cs) →
  ∀ t0 k0, delete t m !! t0 = Some k0 → stage k0 cs.
Proof.
  intros Hm t0 k0. rewrite lookup_delete. case_decide; [done|]. apply Hm.
Qed.

Lemma tasks_stage_snoc (m : gmap nat Cont) cs c :
  (∀ t0 k0, m !! t0 = Some k0 → stage k0 cs) →
  ∀ t0 k0, m !! t0 = Some k0 → stage k0 (cs ++ [c]).
Proof. intros Hm t0 k0 H. apply stage_snoc. by apply (Hm t0). Qed.

Lemma stopProgram_protocol W :
  protocolInvariant W → protocolInvariant (stopProgram W).
Proof.
  intros HI. pose proof HI as (Ha & Hd & Hs & Ho).
  destruct (workerRef (panel W)) as [w|] eqn:Hw.
  - destruct (Hd w eq_refl) as (Hsp & Hns & text & Hp).
    unfold protocolInvariant.
    rewrite stopProgram_spawned, stopProgram_calls, stopProgram_tasks,
      stopProgram_panel, Hw.
    ssimpl. rewrite stoppedWorkers_app.
    split; [|split; [done|split]].
    + intros x [Hx|Hx]%elem_of_app; [by apply Ha|].
      by apply list_elem_of_singleton in Hx as ->.
    + by apply tasks_stage_snoc.
    + apply inOrder_snoc; [done|]. split; [done|]. by exists text.
  - apply (invariant_quiet W); [done|..].
    + apply stopProgram_spawned.
    + by rewrite stopProgram_panel.
    + by rewrite stopProgram_calls, Hw, app_nil_r.
    + by rewrite stopProgram_tasks.
Qed.

Lemma traceFact_protocol format request W :
  (∀ w s, stoppedWorkers [request w s] = [] ∧
          (∀ l, (w ∉ stoppedWorkers l) ∧ (∃ text, ParseProgram w text ∈ l) →
                precedent l (request w s))) →
  protocolInvariant W → protocolInvariant (traceFact format request W).
Proof.
  intros Hreq HI.
  destruct (traceFact_cases format request W)
    as [(_ & _ & w & Hw & ->)|[_ ->]]; [|done].
  pose proof HI as (Ha & Hd & Hs & Ho).
  destruct (Hd w Hw) as (_ & Hns & Hp).
  eapply (invariant_call W); [done|reflexivity..| | |].
  - apply Hreq.
  - by apply Hreq.
  - wsimpl. apply tasks_insert_stage; [|done]. by apply tasks_stage_snoc.
Qed.

Lemma create_protocol W t text c w :
  protocolInvariant W →
  w ∉ spawned W →
  protocolInvariant
    (suspend t (AwaitParse w c)
       (invoke (ParseProgram w text)
          (onPanel (setWorkerRef (Some w)) (handOut w W)))).
Proof.
  intros (Ha & Hd & Hs & Ho) Hw.
  unfold protocolInvariant. wsimpl. ssimpl.
  rewrite stoppedWorkers_app. cbn [stoppedWorkers omap list_omap].
  rewrite app_nil_r.
  split; [|split; [|split]].
  - intros x Hx. apply elem_of_app. left. by apply Ha.
  - intros x [= <-]. split; [apply in_snoc|].
    split; [|exists text; apply in_snoc].
    intros Hx. by apply Hw, Ha.
  - apply tasks_insert_stage; [by apply tasks_stage_snoc|].
    exists text. apply in_snoc.
  - by apply inOrder_snoc.
Qed.

Ltac quiet_case HI :=
  eapply invariant_quiet;
  [exact HI|reflexivity|reflexivity|reflexivity|
   wsimpl; first [by apply tasks_delete_stage|by apply tasks_insert_stage]].

Ltac call_case HI Hk :=
  eapply invariant_call;
  [exact HI|reflexivity|reflexivity|reflexivity|reflexivity|exact Hk|
   wsimpl; apply tasks_insert_stage;
   [by apply tasks_stage_snoc
   |cbn [stage]; first [done|apply in_snoc|eexists; apply in_snoc]]].

Lemma resume_protocol t k r W W' :
  protocolInvariant W →
  tasks W !! t = Some k →
  resume t k r W = Some W' →
  protocolInvariant W'.
Proof.
  intros HI Ht H. pose proof HI as (Ha & Hd & Hs & Ho).
  pose proof (Hs t k Ht) as Hk.
  destruct k; destruct r as [[]|];
    cbn [resume resumeRun resumeTrace] in H; simplify_eq;
    try (by quiet_case HI).
  - case_decide; [done|]. simplify_eq. by apply create_protocol.
  - call_case HI Hk.
  - destruct (startBindings captured); simplify_eq.
    + call_case HI Hk.
    + quiet_case HI.
  - call_case HI Hk.
Qed.

Lemma step_protocol W e W' :
  protocolInvariant W → step W e = Some W' → protocolInvariant W'.
Proof.
  intros HI Hstep.
  destruct e; cbn [step] in Hstep; try (injection Hstep as <-).
  - eapply (invariant_call (stopProgram W));
      [by apply stopProgram_protocol|reflexivity..|done|].
    wsimpl. apply tasks_insert_stage; [|done].
    apply tasks_stage_snoc. by apply stopProgram_protocol.
  - by apply stopProgram_protocol.
  - apply traceFact_protocol; [|done]. by intros w s.
  - apply traceFact_protocol; [|done]. by intros w s.
  - destruct (tasks W !! t) as [k|] eqn:Ht; [|done].
    by eapply resume_protocol.
  - by eapply invariant_quiet; [done|..]; try reflexivity; apply HI.
  - by eapply invariant_quiet; [done|..]; try reflexivity; apply HI.
  - eapply invariant_quiet; [done|reflexivity| |reflexivity|apply HI].
    wsimpl. by apply (rowEdit_keeps workerRef).
  - eapply invariant_quiet; [done|reflexivity| |reflexivity|apply HI].
    wsimpl. by apply (rowEdit_keeps workerRef).
  - by eapply invariant_quiet; [done|..]; try reflexivity; apply HI.
  - by eapply invariant_quiet; [done|..]; try reflexivity; apply HI.
  - destruct (onClickRow_cases predicate row W) as [->| ->]; [done|].
    by eapply invariant_quiet; [done|..]; try reflexivity; apply HI.
  - destruct (openTracingPanel_cases W) as [->| ->]; [done|].
    by eapply invariant_quiet; [done|..]; try reflexivity; apply HI.
  - by eapply invariant_quiet; [done|..]; try reflexivity; apply HI.
  - destruct newActiveKey; [|done].
    by eapply invariant_quiet; [done|..]; try reflexivity; apply HI.
Qed.

Lemma exec_protocol W es W' :
  protocolInvariant W → exec W es = Some W' → protocolInvariant W'.
Proof.
  revert W. induction es as [|e es IH]; intros W HI Hex.
  - by injection Hex as <-.
  - cbn [exec] in Hex. destruct (step W e) as [W1|] eqn:Hstep; [|done].
    apply (IH W1); [|done]. by eapply step_protocol.
Qed.

Lemma reachable_protocol W : reachable W → protocolInvariant W.
Proof.
  intros (text & es & Hex). eapply exec_protocol; [|done].
  unfold protocolInvariant, inOrder. cbn.
  split; [by intros w ?%elem_of_nil|]. split; [done|]. split.
  - intros t k. by rewrite lookup_empty.
  - intros [|??] ??; done.
Qed.

(** X18.  In every reachable world the log of worker operations is in
    pipeline order per worker: [start] on a worker is preceded by
    [markDefaultExports] on it, that by [parseProgram] on it, and
    [getCounts] by [start]. *)
Theorem run_operations_in_order (W : World) :
  reachable W →
  ∀ l1 l2 w,
    (∀ bindings, calls W = l1 ++ Start w bindings :: l2 →
       MarkDefaultExports w ∈ l1) ∧
    (calls W = l1 ++ MarkDefaultExports w :: l2 →
       ∃ text, ParseProgram w text ∈ l1) ∧
    (calls W = l1 ++ GetCounts w :: l2 →
       ∃ bindings, Start w bindings ∈ l1).
Proof.
  intros (_ & _ & _ & Ho)%reachable_protocol l1 l2 w.
  split; [|split].
  - intros m H. apply (Ho _ _ _ H).
  - intros H. apply (Ho _ _ _ H).
  - intros H. apply (Ho _ _ _ H).
Qed.

Lemma run_operations_in_order_witness :
  ∃ W,
    exec (initialWorld "p(1).") Sample.fullRun = Some W ∧
    reachable W ∧
    MarkDefaultExports 1 ∈
      [CreateNemoWorker; ParseProgram 1 "p(1)."; MarkDefaultExports 1].
Proof.
  eexists. split; [vm_compute; reflexivity|].
  match goal with
  | |- reachable ?V ∧ _ =>
      assert (reachable V) as HV
        by (exists "p(1).", Sample.fullRun; vm_compute; reflexivity)
  end.
  split; [exact HV|].
  eapply (proj1 (run_operations_in_order _ HV
            [CreateNemoWorker; ParseProgram 1 "p(1)."; MarkDefaultExports 1]
            [GetCounts 1] 1)).
  reflexivity.
Defined.

(** X19.  In every reachable world [stop] has been invoked at most once
    on any worker, the referenced worker is live (handed out and not
    stopped), and every trace request went to a worker that had been
    asked to parse and had not been stopped at that time. *)
Theorem stop_once_and_trace_only_live (W : World) :
  reachable W →
  NoDup (stoppedWorkers (calls W)) ∧
  (∀ w, workerRef (panel W) = Some w → w ∈ live W) ∧
  (∀ l1 l2 w fact,
     calls W = l1 ++ ParseAndTraceFactAscii w fact :: l2 ∨
     calls W = l1 ++ ParseAndTraceFactGraphML w fact :: l2 →
     (w ∉ stoppedWorkers l1) ∧ ∃ text, ParseProgram w text ∈ l1).
Proof.
  intros (_ & Hd & _ & Ho)%reachable_protocol.
  split; [by apply inOrder_stopped_once|]. split.
  - intros w (Hsp & Hns & _)%Hd. unfold live.
    by apply list_elem_of_filter.
  - intros l1 l2 w fact [H|H]; apply (Ho _ _ _ H).
Qed.

Lemma stop_once_and_trace_only_live_witness :
  ∃ W,
    exec (initialWorld "p(1).") Sample.fullRun = Some W ∧
    reachable W ∧
    NoDup (stoppedWorkers (calls W)) ∧
    1 ∈ live W.
Proof.
  eexists. split; [vm_compute; reflexivity|].
  match goal with
  | |- reachable ?V ∧ _ =>
      assert (reachable V) as HV
        by (exists "p(1).", Sample.fullRun; vm_compute; reflexivity)
  end.
  split; [exact HV|].
  destruct (stop_once_and_trace_only_live _ HV) as (Hnd & Hlive & _).
  split; [exact Hnd|]. apply Hlive. reflexivity.
Defined.
